(** * Constellation line importer (scripts/import-constellation-lines.py)

    A shallow embedding of [ConstellationImporter]: the CSV pass [load]
    with its carried "current constellation" and per-constellation counter,
    and the SQLite side [import_to_db] with its schema script, its implicit
    transaction and the connection's context manager.

    Python values are modelled as follows.
    - [str] is [string]; a character is one of the first 256 code points,
      and [isspace] lists the ones [str.strip] removes in that range.
    - [int] is [Z] (unbounded).
    - a [dict] is a [gmap]; the dict a [csv.DictReader] yields for one
      record maps a header name to a cell, or to [None] where the record was
      shorter than the header, hence [gmap string (option string)].
    - a raised exception is the [Raise] case of [result]; code that runs on
      a connection threads the connection through, so that the state at the
      point of the raise is still there for the rollback. *)

From stdpp Require Import gmap strings list fin_maps pretty.
From Stdlib Require Import Ascii ZArith Lia.

Open Scope Z_scope.

(** ** Exceptions and results *)

Inductive value_error :=
  | invalid_literal (text : string)
  | count_mismatch (code : string) (expected parsed : Z).

(** [OpenError] stands for whatever [open] raises on a path that exists
    (it is a directory, it may not be read), [ReaderError] for whatever the
    reader raises while it is iterated (a field over the size limit, bytes
    that are not UTF-8); [name] is the name of the Python exception. *)
Inductive exception :=
  | FileNotFoundError
  | ValueError (why : value_error)
  | KeyError (key : string)
  | OverflowError
  | IntegrityError
  | OperationalError
  | OpenError (name : string)
  | ReaderError (name : string).

Inductive result (A : Type) :=
  | Ok (a : A)
  | Raise (e : exception).
Arguments Ok {A} a.
Arguments Raise {A} e.

#[global] Instance result_ret : MRet result := @Ok.
#[global] Instance result_bind : MBind result := λ A B f m,
  match m with
  | Ok a => f a
  | Raise e => Raise e
  end.

Definition raises {A} (r : result A) : Prop := ∃ e, r = Raise e.

(** ** Strings *)

(** The characters [str.strip()] removes, among code points below 256:
    tab, line feed, vertical tab, form feed, carriage return, the four
    separators 0x1c-0x1f, space, next line (0x85) and no-break space (0xa0). *)
Definition isspace (c : ascii) : bool :=
  let n := nat_of_ascii c in
  ((9 <=? n) && (n <=? 13) || (28 <=? n) && (n <=? 32)
   || (n =? 133) || (n =? 160))%nat.

Fixpoint lstrip (s : string) : string :=
  match s with
  | String c s' => if isspace c then lstrip s' else s
  | EmptyString => EmptyString
  end.

Fixpoint rstrip (s : string) : string :=
  match s with
  | String c s' =>
      match rstrip s' with
      | EmptyString => if isspace c then EmptyString else String c EmptyString
      | t => String c t
      end
  | EmptyString => EmptyString
  end.

Definition strip (s : string) : string := rstrip (lstrip s).

(** Truth value of a [str]: non-empty. *)
Definition truthy (s : string) : bool :=
  match s with
  | EmptyString => false
  | String _ _ => true
  end.

(** The builtin [int] on the decimal literals it accepts in this range of
    characters: surrounding whitespace, an optional sign, ASCII digits,
    single underscores between digits.  [None] is its [ValueError].  The
    importer below takes the integer parser as a parameter; this one is
    the instance used to run it. *)
Definition is_digit (c : ascii) : bool :=
  ((48 <=? nat_of_ascii c) && (nat_of_ascii c <=? 57))%nat.

Definition digit_value (c : ascii) : Z := Z.of_nat (nat_of_ascii c - 48).

Fixpoint digits_value (acc : Z) (after_digit : bool) (s : string) : option Z :=
  match s with
  | EmptyString => if after_digit then Some acc else None
  | String c s' =>
      if is_digit c then digits_value (10 * acc + digit_value c) true s'
      else if Ascii.eqb c "_"%char && after_digit then digits_value acc false s'
      else None
  end.

Definition py_int (s : string) : option Z :=
  match strip s with
  | String "+"%char r => digits_value 0 false r
  | String "-"%char r => Z.opp <$> digits_value 0 false r
  | r => digits_value 0 false r
  end.

(** ** The data model *)

(** [f"s{i:02d}" for i in range(1, 32)] *)
Definition format_02d (i : nat) : string :=
  if (i <? 10)%nat then "0" +:+ pretty i else pretty i.

Definition STAR_COLUMNS : list string :=
  (λ i, "s" +:+ format_02d i) <$> seq 1 31.

Record ConstellationLine := {
  constellation : string;
  line_number : Z;
  star_ids : list Z
}.

(** One dict of the [DictReader]; [get] is [dict.get]. *)
Abbreviation row := (gmap string (option string)).

Definition get (raw : row) (column : string) : option string :=
  mjoin (raw !! column).

(** The CSV at [_csv_path]: [None] when the path does not exist; else the
    file opens and the reader yields these dicts, in file order, to its end
    without raising. *)
Abbreviation csv_file := (option (list row)).

(** The CSV at [_csv_path] with the ways reading it can go wrong: there is
    no such path; [open] raises; or the file opens and the reader yields
    [rows] in file order and then either is exhausted ([stop] is [None]) or
    raises ([stop] names the exception). *)
Inductive csv_source :=
  | no_file
  | cannot_open (name : string)
  | yields (rows : list row) (stop : option string).

(** ** The parser *)

Section Parser.

(** The builtin [int] applied to a [str]. *)
Variable int : string → option Z.

Definition _parse_int (raw : option string) : result (option Z) :=
  match raw with
  | None => Ok None
  | Some raw =>
      let stripped := strip raw in
      if negb (truthy stripped) then Ok None
      else match int stripped with
           | Some n => Ok (Some n)
           | None => Raise (ValueError (invalid_literal stripped))
           end
  end.

(** The locals of [load] that live across iterations. *)
Record load_state := {
  current_constellation : string;
  per_constellation_counter : gmap string Z;
  lines : list ConstellationLine
}.

Definition load_init : load_state :=
  {| current_constellation := ""; per_constellation_counter := ∅; lines := [] |}.

(** [d.setdefault(k, v)], for its effect on [d]. *)
Definition setdefault (k : string) (v : Z) (d : gmap string Z) : gmap string Z :=
  match d !! k with
  | Some _ => d
  | None => <[k:=v]> d
  end.

(** The generator expression over [STAR_COLUMNS]: the cells are parsed in
    column order, the first failure raises, the present values are kept. *)
Definition parse_star_ids (raw : row) : result (list Z) :=
  cells ← mapM (λ column, _parse_int (get raw column)) STAR_COLUMNS;
  mret (omap id cells).

(** Lines 56-81: the part of the loop body below the abbreviation test. *)
Definition load_line (st : load_state) (raw : row) : result load_state :=
  star_total ← _parse_int (get raw "nr");
  star_ids ← parse_star_ids raw;
  let parsed := Z.of_nat (length star_ids) in
  _ ← match star_total with
      | Some total =>
          if negb (total =? parsed)
          then Raise (ValueError (count_mismatch (current_constellation st)
                                    total parsed))
          else Ok tt
      | None => Ok tt
      end;
    match star_ids with
    | [] => Ok st
    | _ :: _ =>
        let code := current_constellation st in
        match per_constellation_counter st !! code with
        | None => Raise (KeyError code)
        | Some n =>
            let line_number := n + 1 in
            Ok {| current_constellation := code;
                  per_constellation_counter :=
                    <[code:=line_number]> (per_constellation_counter st);
                  lines := lines st ++
                    [{| constellation := code;
                        line_number := line_number;
                        star_ids := star_ids |}] |}
        end
    end.

(** One iteration of [for raw in reader]. *)
Definition load_row (st : load_state) (raw : row) : result load_state :=
  let abbr := strip (default "" (get raw "abr")) in
  if truthy abbr then
    load_line {| current_constellation := abbr;
                 per_constellation_counter :=
                   setdefault abbr 0 (per_constellation_counter st);
                 lines := lines st |} raw
  else if negb (truthy (current_constellation st)) then Ok st
  else load_line st raw.

Fixpoint load_rows (st : load_state) (rows : list row) : result load_state :=
  match rows with
  | [] => Ok st
  | raw :: rows => st' ← load_row st raw; load_rows st' rows
  end.

Definition load (csv : csv_file) : result (list ConstellationLine) :=
  match csv with
  | None => Raise FileNotFoundError
  | Some rows => st ← load_rows load_init rows; mret (lines st)
  end.

(** [load] on a [csv_source]: the same loop, with the errors of [open]
    and of the reader going to the caller as they come.  The rows the
    reader yields are processed before it raises. *)
Definition load_file (src : csv_source) : result (list ConstellationLine) :=
  match src with
  | no_file => Raise FileNotFoundError
  | cannot_open name => Raise (OpenError name)
  | yields rows stop =>
      st ← load_rows load_init rows;
      match stop with
      | None => mret (lines st)
      | Some name => Raise (ReaderError name)
      end
  end.

End Parser.

(** ** The database *)

(** The two tables of the schema script.  A table is the list of its rows
    in insertion order. *)
Module constellation_line.

Record row := {
  line_id : Z;
  constellation : string;
  line_number : Z;
  star_count : Z
}.

(** [line_id INTEGER PRIMARY KEY AUTOINCREMENT]: besides its rows the
    table has its entry of [sqlite_sequence], the largest key ever handed
    out ([0] while there is no entry).  Dropping the table drops the entry
    with it. *)
Record table := {
  rows : list row;
  seq : Z
}.

End constellation_line.

Module constellation_line_star.

Record row := {
  line_id : Z;
  sequence_index : Z;
  bsc_number : Z
}.

End constellation_line_star.

Inductive table_name := tbl_constellation_line | tbl_constellation_line_star.

#[global] Instance table_name_eq_dec : EqDecision table_name.
Proof. solve_decision. Defined.

(** What the file at [_db_path] holds of the schema: each table, when it
    exists, and the named indexes with the table each one is on.  A path
    with no file yet is the database with neither table.  The files covered
    are those in which nothing else bears a name of the schema script: no
    view, and no table or index of another table, called like one of its two
    tables or two indexes. *)
Record database := {
  line_table : option constellation_line.table;
  star_table : option (list constellation_line_star.row);
  indexes : list (string * table_name)
}.

Definition no_database : database :=
  {| line_table := None; star_table := None; indexes := [] |}.

(** A [sqlite3.Connection]: the committed file, and the view of the open
    transaction when there is one. *)
Record connection := {
  file : database;
  transaction : option database
}.

Definition connect (db : database) : connection :=
  {| file := db; transaction := None |}.

Definition view (conn : connection) : database :=
  default (file conn) (transaction conn).

(** Code that runs on a connection and may raise. *)
Definition db (A : Type) : Type := connection → result A * connection.

Definition db_ret {A} (a : A) : db A := λ conn, (Ok a, conn).
Definition db_raise {A} (e : exception) : db A := λ conn, (Raise e, conn).
Definition db_bind {A B} (m : db A) (k : A → db B) : db B := λ conn,
  match m conn with
  | (Ok a, conn') => k a conn'
  | (Raise e, conn') => (Raise e, conn')
  end.

Notation "x ⇐ m ; k" := (db_bind m (λ x, k))
  (at level 20, m at level 100, k at level 200, only parsing).

(** A statement's effect lands in the open transaction, or, with none
    open, in the file at once (SQLite's autocommit). *)
Definition write (d : database) : db unit := λ conn,
  match transaction conn with
  | Some _ => (Ok tt, {| file := file conn; transaction := Some d |})
  | None => (Ok tt, {| file := d; transaction := None |})
  end.

Definition commit : db unit := λ conn,
  (Ok tt, {| file := view conn; transaction := None |}).

Definition rollback : db unit := λ conn,
  (Ok tt, {| file := file conn; transaction := None |}).

(** The implicit [BEGIN] the module issues ahead of an [INSERT] when no
    transaction is open. *)
Definition begin_implicit : db unit := λ conn,
  match transaction conn with
  | Some _ => (Ok tt, conn)
  | None => (Ok tt, {| file := file conn; transaction := Some (file conn) |})
  end.

(** An [int] bound to a parameter must fit SQLite's 64-bit INTEGER. *)
Definition fits_int64 (n : Z) : bool :=
  (- 2 ^ 63 <=? n) && (n <=? 2 ^ 63 - 1).

Definition bind_int (n : Z) : db Z :=
  if fits_int64 n then db_ret n else db_raise OverflowError.

(** *** The schema script *)

Inductive statement :=
  | DROP_TABLE_IF_EXISTS (t : table_name)
  | CREATE_TABLE (t : table_name)
  | CREATE_INDEX (name : string) (t : table_name).

Definition table_exists (t : table_name) (d : database) : bool :=
  match t with
  | tbl_constellation_line => bool_decide (is_Some (line_table d))
  | tbl_constellation_line_star => bool_decide (is_Some (star_table d))
  end.

Definition run_statement (s : statement) (d : database) : result database :=
  match s with
  | DROP_TABLE_IF_EXISTS t =>
      let kept := filter (λ ix, ix.2 ≠ t) (indexes d) in
      Ok match t with
         | tbl_constellation_line =>
             {| line_table := None; star_table := star_table d;
                indexes := kept |}
         | tbl_constellation_line_star =>
             {| line_table := line_table d; star_table := None;
                indexes := kept |}
         end
  | CREATE_TABLE t =>
      if table_exists t d then Raise OperationalError
      else Ok match t with
              | tbl_constellation_line =>
                  {| line_table :=
                       Some {| constellation_line.rows := [];
                               constellation_line.seq := 0 |};
                     star_table := star_table d; indexes := indexes d |}
              | tbl_constellation_line_star =>
                  {| line_table := line_table d; star_table := Some [];
                     indexes := indexes d |}
              end
  | CREATE_INDEX name t =>
      if bool_decide (name ∈ (indexes d).*1) || negb (table_exists t d)
      then Raise OperationalError
      else Ok {| line_table := line_table d; star_table := star_table d;
                 indexes := indexes d ++ [(name, t)] |}
  end.

(** A statement is prepared against the schema in view: it names a table
    that must exist. *)
Definition prepare (t : table_name) : db unit := λ conn,
  if table_exists t (view conn) then (Ok tt, conn)
  else (Raise OperationalError, conn).

(** A statement is stepped on the database in view; a failed step changes
    nothing. *)
Definition step {A} (f : database → result (A * database)) : db A := λ conn,
  match f (view conn) with
  | Ok (a, d) => (_ ⇐ write d; db_ret a) conn
  | Raise e => (Raise e, conn)
  end.

(** [executescript]: a pending transaction is committed first, then the
    statements run one after the other with no transaction opened for
    them, so each one is in the file as soon as it has run. *)
Fixpoint run_script (script : list statement) : db unit :=
  match script with
  | [] => db_ret tt
  | s :: script =>
      _ ⇐ step (λ d, d' ← run_statement s d; mret (tt, d'));
      run_script script
  end.

Definition executescript (script : list statement) : db unit :=
  _ ⇐ commit; run_script script.

Definition _create_schema : db unit :=
  executescript [
    DROP_TABLE_IF_EXISTS tbl_constellation_line_star;
    DROP_TABLE_IF_EXISTS tbl_constellation_line;
    CREATE_TABLE tbl_constellation_line;
    CREATE_TABLE tbl_constellation_line_star;
    CREATE_INDEX "idx_constellation_line_constellation" tbl_constellation_line;
    CREATE_INDEX "idx_constellation_line_star_constellation"
      tbl_constellation_line_star
  ].

(** *** The inserts *)

Definition max_rowid (rows : list constellation_line.row) : Z :=
  foldr (λ r m, Z.max (constellation_line.line_id r) m) 0 rows.

(** [INSERT INTO constellation_line (constellation, line_number, star_count)
    VALUES (?, ?, ?)], followed by [cursor.lastrowid].  The [str] is bound
    as UTF-8 text, which every [string] here has (its characters are code
    points below 256); the two [int]s are bound as 64-bit integers. *)
Definition insert_constellation_line
    (code : string) (number count : Z) : db Z :=
  _ ⇐ prepare tbl_constellation_line;
  _ ⇐ begin_implicit;
  number ⇐ bind_int number;
  count ⇐ bind_int count;
  step (λ d,
    match line_table d with
    | None => Raise OperationalError
    | Some t =>
        let rowid :=
          Z.max (constellation_line.seq t)
                (max_rowid (constellation_line.rows t)) + 1 in
        if fits_int64 rowid then
          Ok (rowid,
              {| line_table :=
                   Some {| constellation_line.rows :=
                             constellation_line.rows t ++
                             [{| constellation_line.line_id := rowid;
                                 constellation_line.constellation := code;
                                 constellation_line.line_number := number;
                                 constellation_line.star_count := count |}];
                           constellation_line.seq := rowid |};
                 star_table := star_table d;
                 indexes := indexes d |})
        else Raise OperationalError
    end).

(** One parameter tuple of the [executemany]: bound, then stepped; the
    step checks [PRIMARY KEY (line_id, sequence_index)]. *)
Definition insert_constellation_line_star (params : Z * Z * Z) : db unit :=
  let '(line_id, index, star_id) := params in
  line_id ⇐ bind_int line_id;
  index ⇐ bind_int index;
  star_id ⇐ bind_int star_id;
  step (λ d,
    match star_table d with
    | None => Raise OperationalError
    | Some rows =>
        if existsb (λ r, (constellation_line_star.line_id r =? line_id)
                         && (constellation_line_star.sequence_index r =? index))
                   rows
        then Raise IntegrityError
        else Ok (tt,
                 {| line_table := line_table d;
                    star_table :=
                      Some (rows ++
                        [{| constellation_line_star.line_id := line_id;
                            constellation_line_star.sequence_index := index;
                            constellation_line_star.bsc_number := star_id |}]);
                    indexes := indexes d |})
    end).

Fixpoint for_each {A} (f : A → db unit) (l : list A) : db unit :=
  match l with
  | [] => db_ret tt
  | x :: l => _ ⇐ f x; for_each f l
  end.

Definition executemany_constellation_line_star
    (params : list (Z * Z * Z)) : db unit :=
  _ ⇐ prepare tbl_constellation_line_star;
  _ ⇐ begin_implicit;
  for_each insert_constellation_line_star params.

(** [enumerate]. *)
Definition enumerate {A} (l : list A) : list (Z * A) :=
  imap (λ index x, (Z.of_nat index, x)) l.

Definition _insert_lines (lines : list ConstellationLine) : db unit :=
  for_each (λ line,
    line_id ⇐ insert_constellation_line
                (constellation line) (line_number line)
                (Z.of_nat (length (star_ids line)));
    executemany_constellation_line_star
      ((λ '(index, star_id), (line_id, index + 1, star_id))
         <$> enumerate (star_ids line))) lines.

(** The two [PRAGMA] statements set the journal mode and the sync level of
    the file; they read and write no table. *)
Definition pragma : db unit := db_ret tt.

(** [with sqlite3.connect(...) as conn: body]: commit when the body
    returns, roll back when it raises; the exception goes on to the
    caller.  What is left is the file. *)
Definition with_connection (d : database) (body : db unit)
    : result unit * database :=
  match body (connect d) with
  | (Ok _, conn) => (Ok tt, file (commit conn).2)
  | (Raise e, conn) => (Raise e, file (rollback conn).2)
  end.

Definition import_to_db (d : database) (lines : list ConstellationLine)
    : result unit * database :=
  with_connection d (
    _ ⇐ pragma;
    _ ⇐ pragma;
    _ ⇐ _create_schema;
    _ ⇐ _insert_lines lines;
    commit).

(** [main], without the print: parse, then persist. *)
Definition main (int : string → option Z) (csv : csv_file) (d : database)
    : result unit * database :=
  match load int csv with
  | Ok lines => import_to_db d lines
  | Raise e => (Raise e, d)
  end.

(** [DB_PATH.name] *)
Definition DB_PATH_name : string := "ConstellationLines.sqlite".

(** The line [main] prints once the import has returned. *)
Definition imported_message (n : nat) : string :=
  "Imported " +:+ pretty n +:+ " constellation line definitions into "
  +:+ DB_PATH_name.

(** [main] with its print: what reaches standard output, beside the file.
    Nothing is printed when [load] or [import_to_db] raises. *)
Definition main_print (int : string → option Z) (csv : csv_file) (d : database)
    : result string * database :=
  match load int csv with
  | Ok lines =>
      match import_to_db d lines with
      | (Ok _, d') => (Ok (imported_message (length lines)), d')
      | (Raise e, d') => (Raise e, d')
      end
  | Raise e => (Raise e, d)
  end.

(** The dict of a record whose cells are all present. *)
Definition mkrow (cells : list (string * string)) : row :=
  list_to_map (prod_map id Some <$> cells).

(** ** Words of the specification *)

(** The stripped abbreviation field of a row. *)
Definition abbr_of (raw : row) : string := strip (default "" (get raw "abr")).

(** The most recently seen non-blank constellation code of a run of rows;
    the empty string when there is none. *)
Definition last_code (rows : list row) : string :=
  default "" (last (filter (λ a, a ≠ "") (abbr_of <$> rows))).

(** The records of one constellation code, in output order. *)
Definition records_of (code : string) (out : list ConstellationLine)
    : list ConstellationLine :=
  filter (λ l, constellation l = code) out.

(** The value the counter holds for a code; a code it has no key for has
    produced no record. *)
Definition count_of (st : load_state) (code : string) : Z :=
  default 0 (per_constellation_counter st !! code).

(** The schema as the script leaves it: both tables empty, the counter of
    generated keys at its start, the two indexes. *)
Definition empty_schema : database :=
  {| line_table :=
       Some {| constellation_line.rows := []; constellation_line.seq := 0 |};
     star_table := Some [];
     indexes :=
       [("idx_constellation_line_constellation", tbl_constellation_line);
        ("idx_constellation_line_star_constellation",
         tbl_constellation_line_star)] |}.

(** The rows a record stands for, under the key [line_id]. *)
Definition line_row_of (line_id : Z) (l : ConstellationLine)
    : constellation_line.row :=
  {| constellation_line.line_id := line_id;
     constellation_line.constellation := constellation l;
     constellation_line.line_number := line_number l;
     constellation_line.star_count := Z.of_nat (length (star_ids l)) |}.

Definition star_rows_of (line_id : Z) (l : ConstellationLine)
    : list constellation_line_star.row :=
  imap (λ index star_id,
          {| constellation_line_star.line_id := line_id;
             constellation_line_star.sequence_index := Z.of_nat index + 1;
             constellation_line_star.bsc_number := star_id |})
       (star_ids l).

(** The rows of a sequence of records whose keys are [first], [first + 1],
    ... in order. *)
Fixpoint line_rows (first : Z) (out : list ConstellationLine)
    : list constellation_line.row :=
  match out with
  | [] => []
  | l :: out => line_row_of first l :: line_rows (first + 1) out
  end.

Fixpoint star_rows (first : Z) (out : list ConstellationLine)
    : list constellation_line_star.row :=
  match out with
  | [] => []
  | l :: out => star_rows_of first l ++ star_rows (first + 1) out
  end.

(** The database holding exactly the given records, keyed from 1. *)
Definition imported (out : list ConstellationLine) : database :=
  {| line_table :=
       Some {| constellation_line.rows := line_rows 1 out;
               constellation_line.seq := Z.of_nat (length out) |};
     star_table := Some (star_rows 1 out);
     indexes := indexes empty_schema |}.

(** The star rows that reference a key. *)
Definition stars_of_line (line_id : Z)
    (stars : list constellation_line_star.row)
    : list constellation_line_star.row :=
  filter (λ r, constellation_line_star.line_id r = line_id) stars.

(** A record every value of which SQLite can store: the line number and
    the star ids fit 64 bits (the star count is a length, far below). *)
Definition storable (l : ConstellationLine) : Prop :=
  fits_int64 (line_number l) = true ∧
  Forall (λ star_id, fits_int64 star_id = true) (star_ids l) ∧
  Z.of_nat (length (star_ids l)) < 2 ^ 63.

(** The record a row appends, given what its cells parse to. *)
Definition emitted (code : string) (n : Z) (ids : list Z) : ConstellationLine :=
  {| constellation := code; line_number := n + 1; star_ids := ids |}.

(** The state an iteration continues with when its row names a code. *)
Definition entered (abbr : string) (st : load_state) : load_state :=
  {| current_constellation := abbr;
     per_constellation_counter :=
       setdefault abbr 0 (per_constellation_counter st);
     lines := lines st |}.

(** What holds of the locals between iterations: the current code, once
    set, is a key of the counter; the counter of a code is the number of its
    records so far; these are numbered 1, 2, ...; a record has from 1 to 31
    star ids. *)
Record load_inv (st : load_state) : Prop := {
  inv_key :
    current_constellation st ≠ "" →
    is_Some (per_constellation_counter st !! current_constellation st);
  inv_count : ∀ code,
    count_of st code = Z.of_nat (length (records_of code (lines st)));
  inv_dense : ∀ code,
    line_number <$> records_of code (lines st) =
    Z.of_nat <$> seq 1 (length (records_of code (lines st)));
  inv_stars : ∀ l,
    l ∈ lines st → (1 ≤ length (star_ids l) ≤ 31)%nat
}.

Section ParserWords.

Variable int : string → option Z.

(** One iteration either leaves the output and every counter as they
    were, or appends one record, with a non-empty [star_ids], and moves the
    counter of its code alone, by one, to the record's number. *)
Definition step_effect (st st' : load_state) (raw : row) : Prop :=
  (lines st' = lines st ∧
   (∀ code, count_of st' code = count_of st code) ∧
   (abbr_of raw = "" ∧ current_constellation st = "" ∨
    parse_star_ids int raw = Ok []))
  ∨
  (∃ ids, ids ≠ [] ∧ parse_star_ids int raw = Ok ids ∧
     lines st' = lines st ++
       [{| constellation := current_constellation st';
           line_number := count_of st (current_constellation st') + 1;
           star_ids := ids |}] ∧
     count_of st' (current_constellation st') =
       count_of st (current_constellation st') + 1 ∧
     ∀ code, code ≠ current_constellation st' →
       count_of st' code = count_of st code).

(** The declared count and the star cells of a row all parse. *)
Definition fields_parse (raw : row) : Prop :=
  (∃ total, _parse_int int (get raw "nr") = Ok total) ∧
  (∃ ids, parse_star_ids int raw = Ok ids).

(** The row carries a declared count that differs from the number of star
    ids parsed from it. *)
Definition count_mismatched (raw : row) : Prop :=
  ∃ total ids,
    _parse_int int (get raw "nr") = Ok (Some total) ∧
    parse_star_ids int raw = Ok ids ∧
    total ≠ Z.of_nat (length ids).

(** Some row at or after the first non-blank abbreviation is mismatched. *)
Definition mismatch_row (rows : list row) : Prop :=
  ∃ i raw, rows !! i = Some raw ∧
           last_code (take (S i) rows) ≠ "" ∧
           count_mismatched raw.

(** Two rows that [load] cannot tell apart: the same abbreviation cell,
    and the same parse of the count cell and of every star cell. *)
Definition rows_agree (r1 r2 : row) : Prop :=
  get r1 "abr" = get r2 "abr" ∧
  _parse_int int (get r1 "nr") = _parse_int int (get r2 "nr") ∧
  ∀ column, column ∈ STAR_COLUMNS →
    _parse_int int (get r1 column) = _parse_int int (get r2 column).

End ParserWords.

(** Code that leaves the committed file alone and closes no transaction;
    the second form for code that needs one open to do so. *)
Definition keeps_file {A} (m : db A) : Prop :=
  ∀ conn r conn', m conn = (r, conn') →
    file conn' = file conn ∧
    (is_Some (transaction conn) → is_Some (transaction conn')).

Definition keeps_file_in_transaction {A} (m : db A) : Prop :=
  ∀ conn r conn', is_Some (transaction conn) → m conn = (r, conn') →
    file conn' = file conn ∧ is_Some (transaction conn').

(** The star row a parameter tuple of the [executemany] inserts. *)
Definition star_row_of (params : Z * Z * Z) : constellation_line_star.row :=
  {| constellation_line_star.line_id := params.1.1;
     constellation_line_star.sequence_index := params.1.2;
     constellation_line_star.bsc_number := params.2 |}.

Section OutputWords.

Variable int : string → option Z.

(** What a star cell contributes: nothing when the column is missing or
    the cell blank, else the integer its stripped text stands for. *)
Definition cell_value (raw : row) (column : string) : option Z :=
  cell ← get raw column;
  if decide (strip cell = "") then None else int (strip cell).

(** The cell of a column is one [_parse_int] returns on: missing, blank,
    or an integer literal. *)
Definition cell_parses (raw : row) (column : string) : Prop :=
  ∀ cell, get raw column = Some cell → strip cell ≠ "" →
    is_Some (int (strip cell)).

(** Where the cell of the [j]-th star column lands in the star ids of its
    row: after the values of the non-blank cells of the columns before. *)
Definition star_position (raw : row) (j : nat) : nat :=
  length (omap (cell_value raw) (take j STAR_COLUMNS)).

(** The star ids of a row, none when a cell does not parse. *)
Definition row_star_ids (raw : row) : list Z :=
  match parse_star_ids int raw with
  | Ok ids => ids
  | Raise _ => []
  end.

(** Each row from the first non-blank abbreviation on, with the code it
    falls under and its star ids; [code] is the code carried in. *)
Fixpoint attributed (code : string) (rows : list row)
    : list (string * list Z) :=
  match rows with
  | [] => []
  | raw :: rows =>
      let code' := if decide (abbr_of raw = "") then code else abbr_of raw in
      (if decide (code' = "") then [] else [(code', row_star_ids raw)])
      ++ attributed code' rows
  end.

End OutputWords.

(** The primary key of a star row. *)
Definition star_key (s : constellation_line_star.row) : Z * Z :=
  (constellation_line_star.line_id s,
   constellation_line_star.sequence_index s).

(** ** Sample files *)

(** Two lines of Andromeda, with a blank record between them and the
    second one left to inherit the code, then one of Orion. *)
Definition and_rows : list row := [
  mkrow [("abr", "AND"); ("nr", "2"); ("s01", "1"); ("s02", " 2 ")];
  mkrow [("abr", ""); ("nr", "0")];
  mkrow [("abr", " "); ("s01", "-3"); ("s02", "4"); ("s31", "0")];
  mkrow [("abr", "ORI"); ("nr", "1"); ("s01", "7")]
].

Definition and_lines : list ConstellationLine := [
  {| constellation := "AND"; line_number := 1; star_ids := [1; 2] |};
  {| constellation := "AND"; line_number := 2; star_ids := [-3; 4; 0] |};
  {| constellation := "ORI"; line_number := 1; star_ids := [7] |}
].

(** A row declaring five stars and supplying three. *)
Definition short_rows : list row := [
  mkrow [("abr", "AND"); ("nr", "5"); ("s01", "1"); ("s02", "2"); ("s03", "3")]
].

(** A star cell that is not an integer, and no declared count. *)
Definition not_int_rows : list row := [
  mkrow [("abr", "AND"); ("s01", "x")]
].

(** A line of one star. *)
Definition one_star_rows : list row := [
  mkrow [("abr", "AND"); ("s01", "1")]
].

(** A star id one past the largest 64-bit integer. *)
Definition huge_rows : list row := [
  mkrow [("abr", "AND"); ("s01", "1"); ("s02", "9223372036854775808")]
].

Definition huge_lines : list ConstellationLine := [
  {| constellation := "AND"; line_number := 1;
     star_ids := [1; 9223372036854775808] |}
].

(** Leading records with no abbreviation and cells that are not
    integers. *)
Definition stray_rows : list row := [
  mkrow [("abr", ""); ("nr", "many"); ("s01", "x")];
  mkrow [("abr", "  "); ("s05", "1.5")]
].

(** ** Facts about results and strings *)

Lemma bind_Ok {A B} (m : result A) (f : A → result B) b :
  m ≫= f = Ok b ↔ ∃ a, m = Ok a ∧ f a = Ok b.
Proof.
  destruct m as [a|e]; unfold mbind, result_bind; split.
  - eauto.
  - by intros (a' & [= <-] & ?).
  - discriminate.
  - by intros (? & ? & _).
Qed.

Lemma bind_Raise {A B} (m : result A) (f : A → result B) e :
  m ≫= f = Raise e ↔ m = Raise e ∨ ∃ a, m = Ok a ∧ f a = Raise e.
Proof.
  destruct m as [a|e']; unfold mbind, result_bind; split.
  - eauto.
  - by intros [?|(a' & [= <-] & ?)].
  - intros [= ->]; by left.
  - intros [[= ->]|(? & ? & _)]; done.
Qed.

Lemma truthy_true s : truthy s = true ↔ s ≠ "".
Proof. by destruct s. Qed.

Lemma truthy_false s : truthy s = false ↔ s = "".
Proof. by destruct s. Qed.

Lemma mapM_result_Forall2 {A B} (f : A → result B) l k :
  mapM f l = Ok k → Forall2 (λ x y, f x = Ok y) l k.
Proof.
  revert k. induction l as [|x l IH]; intros k; simpl.
  - intros [= <-]. constructor.
  - intros (y & Hy & (k' & Hk' & [= <-])%bind_Ok)%bind_Ok.
    constructor; auto.
Qed.

Lemma Forall2_mapM_result {A B} (f : A → result B) l k :
  Forall2 (λ x y, f x = Ok y) l k → mapM f l = Ok k.
Proof.
  induction 1 as [|x y l k Hxy _ IH]; simpl; [done|].
  by rewrite Hxy; simpl; rewrite IH.
Qed.

Lemma length_omap_id {A} (l : list (option A)) :
  (length (omap id l) ≤ length l)%nat.
Proof. induction l as [|[a|] l IH]; csimpl; simpl in *; lia. Qed.

Lemma length_STAR_COLUMNS : length STAR_COLUMNS = 31%nat.
Proof. reflexivity. Qed.

Section ParserFacts.

Variable int : string → option Z.

Lemma _parse_int_None : _parse_int int None = Ok None.
Proof. reflexivity. Qed.

Lemma _parse_int_blank cell : strip cell = "" → _parse_int int (Some cell) = Ok None.
Proof. intros H. unfold _parse_int. by rewrite H. Qed.

Lemma _parse_int_Some cell n :
  _parse_int int (Some cell) = Ok (Some n) ↔
  strip cell ≠ "" ∧ int (strip cell) = Some n.
Proof.
  unfold _parse_int. destruct (strip cell) as [|c s] eqn:E; simpl.
  - split; [discriminate|]. by intros [? _].
  - destruct (int (String c s)) as [m|]; split.
    + by intros [= ->].
    + by intros [_ [= ->]].
    + discriminate.
    + by intros [_ ?].
Qed.

Lemma length_parse_star_ids raw ids :
  parse_star_ids int raw = Ok ids → (length ids ≤ 31)%nat.
Proof.
  unfold parse_star_ids.
  intros (cells & Hcells%mapM_result_Forall2 & [= <-])%bind_Ok.
  apply Forall2_length in Hcells. rewrite length_STAR_COLUMNS in Hcells.
  pose proof (length_omap_id cells). lia.
Qed.

(** What an iteration that gets past the abbreviation test does. *)
Lemma load_line_Ok st raw st' :
  load_line int st raw = Ok st' ↔
  ∃ total ids,
    _parse_int int (get raw "nr") = Ok total ∧
    parse_star_ids int raw = Ok ids ∧
    (∀ t, total = Some t → t = Z.of_nat (length ids)) ∧
    ((ids = [] ∧ st' = st) ∨
     (ids ≠ [] ∧ ∃ n,
        per_constellation_counter st !! current_constellation st = Some n ∧
        st' = {| current_constellation := current_constellation st;
                 per_constellation_counter :=
                   <[current_constellation st := n + 1]>
                     (per_constellation_counter st);
                 lines := lines st ++
                   [emitted (current_constellation st) n ids] |})).
Proof.
  unfold load_line. split.
  - intros (total & Ht & (ids & Hids & Hrest%bind_Ok)%bind_Ok)%bind_Ok.
    destruct Hrest as ([] & Hchk & Hrest).
    exists total, ids. split_and!; [done..| |].
    + intros t ->. destruct (Z.eqb_spec t (Z.of_nat (length ids))); [done|].
      discriminate.
    + destruct ids as [|i ids]; [left; by inversion Hrest|right].
      split; [done|].
      destruct (per_constellation_counter st !! current_constellation st)
        as [n|]; [|done].
      exists n. split; [done|]. by inversion Hrest.
  - intros (total & ids & Ht & Hids & Hchk & Hcase).
    rewrite Ht; simpl. rewrite Hids; simpl.
    assert (match total with
            | Some t =>
                if negb (t =? Z.of_nat (length ids))
                then @Raise unit (ValueError (count_mismatch
                       (current_constellation st) t (Z.of_nat (length ids))))
                else Ok tt
            | None => Ok tt
            end = Ok tt) as ->.
    { destruct total as [t|]; [|done].
      rewrite (Hchk t eq_refl), Z.eqb_refl. done. }
    simpl. destruct Hcase as [[-> ->]|(Hne & n & Hn & ->)]; [done|].
    destruct ids; [done|]. by rewrite Hn.
Qed.

Lemma load_row_new st raw :
  abbr_of raw ≠ "" →
  load_row int st raw = load_line int (entered (abbr_of raw) st) raw.
Proof.
  intros H%truthy_true. unfold load_row. fold (abbr_of raw). by rewrite H.
Qed.

Lemma load_row_skip st raw :
  abbr_of raw = "" → current_constellation st = "" →
  load_row int st raw = Ok st.
Proof.
  intros H%truthy_false H'%truthy_false. unfold load_row.
  fold (abbr_of raw). by rewrite H, H'.
Qed.

Lemma load_row_carry st raw :
  abbr_of raw = "" → current_constellation st ≠ "" →
  load_row int st raw = load_line int st raw.
Proof.
  intros H%truthy_false H'%truthy_true. unfold load_row.
  fold (abbr_of raw). by rewrite H, H'.
Qed.

Lemma count_of_entered abbr st code :
  count_of (entered abbr st) code = count_of st code.
Proof.
  unfold count_of, entered, setdefault; simpl.
  destruct (per_constellation_counter st !! abbr) eqn:E; [done|].
  destruct (decide (abbr = code)) as [->|Hne].
  - by rewrite lookup_insert_eq, E.
  - by rewrite lookup_insert_ne.
Qed.

Lemma entered_has_key abbr st :
  is_Some (per_constellation_counter (entered abbr st) !! abbr).
Proof.
  unfold entered, setdefault; simpl.
  destruct (per_constellation_counter st !! abbr) eqn:E.
  - rewrite E. eauto.
  - rewrite lookup_insert_eq. eauto.
Qed.

Lemma load_inv_init : load_inv load_init.
Proof.
  split; simpl; try done.
  intros l Hl. by apply elem_of_nil in Hl.
Qed.

Lemma load_inv_entered abbr st : load_inv st → load_inv (entered abbr st).
Proof.
  intros [Hk Hc Hd Hs]. split.
  - intros _. apply entered_has_key.
  - intros code. rewrite count_of_entered. apply Hc.
  - apply Hd.
  - apply Hs.
Qed.

Lemma records_of_snoc code out l :
  records_of code (out ++ [l]) =
  records_of code out ++ (if decide (constellation l = code) then [l] else []).
Proof.
  unfold records_of. by rewrite filter_app.
Qed.

Lemma load_inv_load_line st raw st' :
  load_inv st → load_line int st raw = Ok st' → load_inv st'.
Proof.
  intros Hinv (total & ids & _ & Hids & _ & Hcase)%load_line_Ok.
  destruct Hcase as [[_ ->]|(Hne & n & Hn & ->)]; [done|].
  destruct Hinv as [Hk Hc Hd Hs].
  assert (n = Z.of_nat (length
            (records_of (current_constellation st) (lines st)))) as Hn'.
  { rewrite <- Hc. unfold count_of. by rewrite Hn. }
  split; simpl.
  - intros _. rewrite lookup_insert_eq. eauto.
  - intros code. unfold count_of; simpl. rewrite records_of_snoc; simpl.
    destruct (decide (current_constellation st = code)) as [<-|Hother].
    + rewrite lookup_insert_eq, length_app; simpl. lia.
    + rewrite lookup_insert_ne, app_nil_r by done. apply Hc.
  - intros code. rewrite records_of_snoc; simpl.
    destruct (decide (current_constellation st = code)) as [<-|Hother].
    + rewrite fmap_app, length_app, Hd; simpl.
      rewrite Nat.add_1_r, seq_S, fmap_app; simpl.
      do 2 f_equal. lia.
    + rewrite app_nil_r. apply Hd.
  - intros l [Hl|Hl%list_elem_of_singleton]%elem_of_app; [by apply Hs|].
    subst l; simpl. apply length_parse_star_ids in Hids.
    destruct ids; [done|]. simpl in *. lia.
Qed.

Lemma load_inv_load_row st raw st' :
  load_inv st → load_row int st raw = Ok st' → load_inv st'.
Proof.
  intros Hinv. destruct (decide (abbr_of raw = "")) as [Ha|Ha].
  - destruct (decide (current_constellation st = "")) as [Hc|Hc].
    + rewrite load_row_skip by done. by intros [= <-].
    + rewrite load_row_carry by done. by apply load_inv_load_line.
  - rewrite load_row_new by done.
    by apply load_inv_load_line, load_inv_entered.
Qed.

Lemma load_inv_load_rows rows st st' :
  load_inv st → load_rows int st rows = Ok st' → load_inv st'.
Proof.
  revert st. induction rows as [|raw rows IH]; intros st Hinv; simpl.
  - by intros [= <-].
  - intros (st1 & H1 & Hrest)%bind_Ok.
    eapply IH; [|done]. by eapply load_inv_load_row.
Qed.

Lemma load_Ok csv out :
  load int csv = Ok out ↔
  ∃ rows st, csv = Some rows ∧ load_rows int load_init rows = Ok st ∧
             out = lines st.
Proof.
  unfold load. destruct csv as [rows|]; split.
  - intros (st & Hst & [= <-])%bind_Ok. eauto.
  - intros (? & st & [= <-] & Hst & ->). apply bind_Ok. eauto.
  - discriminate.
  - by intros (? & ? & ? & _).
Qed.

Lemma mapM_all_None {A B} (f : A → result (option B)) l :
  (∀ x, x ∈ l → f x = Ok None) →
  mapM f l = Ok (replicate (length l) None).
Proof.
  induction l as [|x l IH]; intros H; simpl; [done|].
  rewrite (H x) by left. simpl.
  rewrite IH; [done|]. intros y Hy. apply H. by right.
Qed.

Lemma omap_id_replicate_None {A} n : omap id (replicate n (@None A)) = [].
Proof. induction n; simpl; auto. Qed.

Lemma parse_star_ids_blank raw :
  (∀ column, column ∈ STAR_COLUMNS → _parse_int int (get raw column) = Ok None) →
  parse_star_ids int raw = Ok [].
Proof.
  intros H. unfold parse_star_ids.
  by rewrite (mapM_all_None _ _ H).
Qed.

Lemma load_line_step st0 st raw st' :
  (∀ code, count_of st0 code = count_of st code) →
  lines st0 = lines st →
  load_line int st0 raw = Ok st' → step_effect int st st' raw.
Proof.
  intros Hcnt Hlines (total & ids & _ & Hids & _ & Hcase)%load_line_Ok.
  destruct Hcase as [[-> ->]|(Hne & n & Hn & ->)].
  - left. auto.
  - right. exists ids. simpl. unfold emitted.
    rewrite <- !Hcnt, Hlines. unfold count_of at 1 2 3; simpl.
    rewrite lookup_insert_eq, Hn; simpl. split_and!; try done.
    intros code Hcode. rewrite <- Hcnt. unfold count_of; simpl.
    by rewrite lookup_insert_ne.
Qed.

Lemma load_row_step st raw st' :
  load_row int st raw = Ok st' → step_effect int st st' raw.
Proof.
  destruct (decide (abbr_of raw = "")) as [Ha|Ha].
  - destruct (decide (current_constellation st = "")) as [Hc|Hc].
    + rewrite load_row_skip by done. intros [= <-]. left. auto.
    + rewrite load_row_carry by done. by apply load_line_step.
  - rewrite load_row_new by done. apply load_line_step; [|done].
    intros code. apply count_of_entered.
Qed.

(** *** The current constellation *)

Lemma load_row_current st raw st' :
  load_row int st raw = Ok st' →
  current_constellation st' =
  if decide (abbr_of raw = "") then current_constellation st else abbr_of raw.
Proof.
  assert (∀ st0, load_line int st0 raw = Ok st' →
            current_constellation st' = current_constellation st0) as Hline.
  { intros st0 (? & ? & _ & _ & _ & [[_ ->]|(_ & ? & _ & ->)])%load_line_Ok; done. }
  destruct (decide (abbr_of raw = "")) as [Ha|Ha].
  - destruct (decide (current_constellation st = "")) as [Hc|Hc].
    + rewrite load_row_skip by done. by intros [= <-].
    + rewrite load_row_carry by done. apply Hline.
  - rewrite load_row_new by done. apply Hline.
Qed.

Lemma load_rows_app st rows1 rows2 :
  load_rows int st (rows1 ++ rows2) =
  load_rows int st rows1 ≫= λ st1, load_rows int st1 rows2.
Proof.
  revert st. induction rows1 as [|raw rows1 IH]; intros st; simpl; [done|].
  destruct (load_row int st raw) as [st1|e]; simpl; [apply IH|done].
Qed.

Lemma last_code_snoc rows raw :
  last_code (rows ++ [raw]) =
  if decide (abbr_of raw = "") then last_code rows else abbr_of raw.
Proof.
  unfold last_code. rewrite fmap_app, filter_app; simpl.
  rewrite filter_cons, filter_nil.
  destruct (decide (abbr_of raw = "")) as [Ha|Ha].
  - rewrite decide_False by (by intros []). by rewrite app_nil_r.
  - rewrite decide_True by done. by rewrite last_snoc.
Qed.

Lemma load_rows_last_code rows st :
  load_rows int load_init rows = Ok st →
  current_constellation st = last_code rows.
Proof.
  revert st. induction rows as [|raw rows IH] using rev_ind; intros st.
  - by intros [= <-].
  - rewrite load_rows_app. intros (st1 & H1 & H2)%bind_Ok.
    simpl in H2. apply bind_Ok in H2 as (st2 & H2 & [= <-]).
    rewrite (load_row_current _ _ _ H2), (IH _ H1).
    by rewrite last_code_snoc.
Qed.

Lemma load_row_lines st raw st' :
  load_row int st raw = Ok st' →
  ∃ produced, lines st' = lines st ++ produced ∧
    (produced = [] ∨
     ∃ n ids, ids ≠ [] ∧ parse_star_ids int raw = Ok ids ∧
       produced = [{| constellation := current_constellation st';
                      line_number := n; star_ids := ids |}]).
Proof.
  intros [(Hl & _ & _)|(ids & Hne & Hids & Hl & _ & _)]%load_row_step.
  - exists []. rewrite app_nil_r. auto.
  - eexists. split; [done|]. right. eauto.
Qed.

Lemma load_rows_lines rows st st' :
  load_rows int st rows = Ok st' → ∃ added, lines st' = lines st ++ added.
Proof.
  revert st. induction rows as [|raw rows IH]; intros st; simpl.
  - intros [= <-]. exists []. by rewrite app_nil_r.
  - intros (st1 & (produced & H1 & _)%load_row_lines & (added & H2)%IH)%bind_Ok.
    exists (produced ++ added). by rewrite H2, H1, app_assoc.
Qed.

(** *** How [load] raises *)

Lemma _parse_int_Raise cell e :
  _parse_int int cell = Raise e → ∃ text, e = ValueError (invalid_literal text).
Proof.
  unfold _parse_int. destruct cell as [cell|]; [|done].
  destruct (negb _); [done|]. destruct (int _); [done|].
  intros [= <-]. eauto.
Qed.

Lemma mapM_result_Raise {A B} (f : A → result B) l e :
  mapM f l = Raise e → ∃ x, x ∈ l ∧ f x = Raise e.
Proof.
  induction l as [|x l IH]; simpl; [done|].
  intros [H|(y & Hy & [H|(k & Hk & H)]%bind_Raise)]%bind_Raise.
  - exists x. split; [left|done].
  - destruct (IH H) as (x' & ? & ?). exists x'. split; [by right|done].
  - done.
Qed.

Lemma parse_star_ids_Raise raw e :
  parse_star_ids int raw = Raise e →
  ∃ text, e = ValueError (invalid_literal text).
Proof.
  unfold parse_star_ids.
  intros [(x & _ & H)%mapM_result_Raise|(? & _ & H)]%bind_Raise; [|done].
  by eapply _parse_int_Raise.
Qed.

Lemma load_line_Raise st raw e :
  load_line int st raw = Raise e →
  (¬ fields_parse int raw ∧ ∃ text, e = ValueError (invalid_literal text)) ∨
  (count_mismatched int raw ∧
   ∃ total parsed,
     e = ValueError (count_mismatch (current_constellation st) total parsed)) ∨
  (per_constellation_counter st !! current_constellation st = None ∧
   e = KeyError (current_constellation st)).
Proof.
  unfold load_line.
  destruct (_parse_int int (get raw "nr")) as [total|e1] eqn:Ht; simpl.
  2:{ intros [= <-]. left. split; [|by eapply _parse_int_Raise].
      intros [[? ?] _]. congruence. }
  destruct (parse_star_ids int raw) as [ids|e2] eqn:Hids; simpl.
  2:{ intros [= <-]. left. split; [|by eapply parse_star_ids_Raise].
      intros [_ [? ?]]. congruence. }
  destruct total as [t|]; simpl.
  - destruct (Z.eqb_spec t (Z.of_nat (length ids))) as [->|Hne]; simpl.
    + destruct ids; [done|].
      destruct (_ !! _) eqn:E; [done|]. intros [= <-]. auto.
    + intros [= <-]. right; left. split; [|eauto].
      exists t, ids. by rewrite Ht.
  - destruct ids; [done|].
    destruct (_ !! _) eqn:E; [done|]. intros [= <-]. auto.
Qed.

Lemma load_line_mismatch st raw :
  count_mismatched int raw →
  ∃ total parsed,
    load_line int st raw =
    Raise (ValueError (count_mismatch (current_constellation st) total parsed)).
Proof.
  intros (t & ids & Ht & Hids & Hne). exists t, (Z.of_nat (length ids)).
  unfold load_line. rewrite Ht; simpl. rewrite Hids; simpl.
  by destruct (Z.eqb_spec t (Z.of_nat (length ids))).
Qed.

Lemma load_rows_Raise rows st e :
  load_rows int st rows = Raise e →
  ∃ pre raw post st1,
    rows = pre ++ raw :: post ∧
    load_rows int st pre = Ok st1 ∧
    load_row int st1 raw = Raise e.
Proof.
  revert st. induction rows as [|raw rows IH]; intros st; simpl; [done|].
  intros [H|(st1 & H1 & H)]%bind_Raise.
  - by exists [], raw, rows, st.
  - destruct (IH _ H) as (pre & raw' & post & st2 & -> & Hpre & Hraw).
    exists (raw :: pre), raw', post, st2. simpl. by rewrite H1.
Qed.

Lemma mismatch_row_middle pre raw post :
  last_code (pre ++ [raw]) ≠ "" → count_mismatched int raw →
  mismatch_row int (pre ++ raw :: post).
Proof.
  intros Hcode Hmis. exists (length pre), raw. split_and!; [|  |done].
  - by rewrite list_lookup_middle.
  - replace (pre ++ raw :: post) with ((pre ++ [raw]) ++ post)
      by (by rewrite <- app_assoc).
    rewrite take_app_length'; [done|].
    rewrite length_app. simpl. lia.
Qed.

Lemma load_Raise_cases rows e :
  load int (Some rows) = Raise e →
  (mismatch_row int rows ∧
   ∃ code total parsed, e = ValueError (count_mismatch code total parsed)) ∨
  ((∃ raw, raw ∈ rows ∧ ¬ fields_parse int raw) ∧
   ∃ text, e = ValueError (invalid_literal text)).
Proof.
  unfold load. intros [H|(? & _ & H)]%bind_Raise; [|done].
  apply load_rows_Raise in H as (pre & raw & post & st1 & -> & Hpre & Hraw).
  pose proof (load_inv_load_rows _ _ _ load_inv_init Hpre) as Hinv.
  pose proof (load_rows_last_code _ _ Hpre) as Hcur.
  assert (∀ st0,
            is_Some (per_constellation_counter st0 !! current_constellation st0) →
            current_constellation st0 = last_code (pre ++ [raw]) →
            last_code (pre ++ [raw]) ≠ "" →
            load_line int st0 raw = Raise e →
            (mismatch_row int (pre ++ raw :: post) ∧
             ∃ code total parsed,
               e = ValueError (count_mismatch code total parsed)) ∨
            ((∃ raw', raw' ∈ pre ++ raw :: post ∧ ¬ fields_parse int raw') ∧
             ∃ text, e = ValueError (invalid_literal text))) as Hline.
  { intros st0 [n Hn] _ Hcode [[Hf He]|[[Hm He]|[Hk _]]]%load_line_Raise.
    - right. split; [|done]. exists raw. split; [|done].
      apply elem_of_app. right. left.
    - left. split; [by apply mismatch_row_middle|].
      destruct He as (t & m & ->). eauto.
    - congruence. }
  rewrite last_code_snoc in Hline.
  destruct (decide (abbr_of raw = "")) as [Ha|Ha].
  - destruct (decide (current_constellation st1 = "")) as [Hc|Hc].
    + by rewrite load_row_skip in Hraw.
    + rewrite load_row_carry in Hraw by done.
      apply (Hline st1); [by apply inv_key|done|congruence|done].
  - rewrite load_row_new in Hraw by done.
    apply (Hline (entered (abbr_of raw) st1)); [|done..].
    apply entered_has_key.
Qed.

Lemma mismatch_row_raises rows :
  mismatch_row int rows → raises (load int (Some rows)).
Proof.
  intros (i & raw & Hi & Hcode & Hmis).
  rewrite (take_S_r _ _ _ Hi), last_code_snoc in Hcode.
  unfold load. rewrite <- (take_drop_middle rows i raw Hi), load_rows_app.
  destruct (load_rows int load_init (take i rows)) as [st1|e] eqn:Hpre;
    simpl; [|by exists e].
  pose proof (load_rows_last_code _ _ Hpre) as Hcur.
  assert (∃ e, load_row int st1 raw = Raise e) as [e He].
  { destruct (decide (abbr_of raw = "")) as [Ha|Ha].
    - rewrite load_row_carry by congruence.
      destruct (load_line_mismatch st1 raw Hmis) as (? & ? & ->). eauto.
    - rewrite load_row_new by done.
      destruct (load_line_mismatch (entered (abbr_of raw) st1) raw Hmis)
        as (? & ? & ->). eauto. }
  rewrite He. by exists e.
Qed.

Lemma mapM_result_ext {A B} (f g : A → result B) l :
  (∀ x, x ∈ l → f x = g x) → mapM f l = mapM g l.
Proof.
  induction l as [|x l IH]; intros H; simpl; [done|].
  rewrite (H x) by left. rewrite IH; [done|].
  intros y Hy. apply H. by right.
Qed.

Lemma load_row_agree st r1 r2 :
  rows_agree int r1 r2 → load_row int st r1 = load_row int st r2.
Proof.
  intros (Habr & Hnr & Hstars).
  assert (∀ st0, load_line int st0 r1 = load_line int st0 r2) as Hline.
  { intros st0. unfold load_line, parse_star_ids. rewrite Hnr.
    by rewrite (mapM_result_ext _ _ _ Hstars). }
  unfold load_row. rewrite Habr.
  by rewrite !Hline.
Qed.

Lemma load_rows_agree st rows1 rows2 :
  Forall2 (rows_agree int) rows1 rows2 →
  load_rows int st rows1 = load_rows int st rows2.
Proof.
  intros H. revert st. induction H as [|r1 r2 rows1 rows2 Hr _ IH];
    intros st; simpl; [done|].
  rewrite (load_row_agree _ _ _ Hr).
  destruct (load_row int st r2); simpl; [apply IH|done].
Qed.

Lemma abr_not_parsed : "abr" ∉ "nr" :: STAR_COLUMNS.
Proof. apply (bool_decide_unpack _). by vm_compute. Qed.

Lemma get_delete_eq (raw : row) column : get (delete column raw) column = None.
Proof. unfold get. by rewrite lookup_delete_eq. Qed.

Lemma get_delete_ne (raw : row) column other :
  column ≠ other → get (delete column raw) other = get raw other.
Proof. intros H. unfold get. by rewrite lookup_delete_ne. Qed.

Lemma get_insert_eq (raw : row) column cell :
  get (<[column := cell]> raw) column = cell.
Proof. unfold get. by rewrite lookup_insert_eq. Qed.

Lemma get_insert_ne (raw : row) column other cell :
  column ≠ other → get (<[column := cell]> raw) other = get raw other.
Proof. intros H. unfold get. by rewrite lookup_insert_ne. Qed.

Lemma rows_agree_missing_blank raw column blank :
  column ∈ "nr" :: STAR_COLUMNS → strip blank = "" →
  rows_agree int (delete column raw) (<[column := Some blank]> raw).
Proof.
  intros Hcol Hblank.
  assert (column ≠ "abr") as Habr.
  { intros ->. by apply abr_not_parsed. }
  assert (∀ other, _parse_int int (get (delete column raw) other) =
                   _parse_int int (get (<[column := Some blank]> raw) other))
    as Hsame.
  { intros other. destruct (decide (column = other)) as [<-|Hne].
    - by rewrite get_delete_eq, get_insert_eq, _parse_int_blank.
    - by rewrite get_delete_ne, get_insert_ne. }
  split_and!.
  - by rewrite get_delete_ne, get_insert_ne.
  - apply Hsame.
  - intros other _. apply Hsame.
Qed.

Lemma load_Raise_rows rows e :
  load int (Some rows) = Raise e ↔ load_rows int load_init rows = Raise e.
Proof.
  unfold load. rewrite bind_Raise. split; [|by left].
  by intros [?|(? & _ & ?)].
Qed.

Lemma load_file_yields_None rows :
  load_file int (yields rows None) = load int (Some rows).
Proof. reflexivity. Qed.

Lemma load_file_Raise_rows rows stop e :
  load int (Some rows) = Raise e → load_file int (yields rows stop) = Raise e.
Proof. intros H%load_Raise_rows. unfold load_file. by rewrite H. Qed.

(** Every way [load] raises. *)
Lemma load_file_Raise_cases src e :
  load_file int src = Raise e →
  (src = no_file ∧ e = FileNotFoundError) ∨
  (∃ name, src = cannot_open name ∧ e = OpenError name) ∨
  (∃ rows stop, src = yields rows stop ∧
     ((mismatch_row int rows ∧
       ∃ code total parsed,
         e = ValueError (count_mismatch code total parsed)) ∨
      ((∃ raw, raw ∈ rows ∧ ¬ fields_parse int raw) ∧
       ∃ text, e = ValueError (invalid_literal text)) ∨
      (∃ name out, stop = Some name ∧ e = ReaderError name ∧
         load int (Some rows) = Ok out))).
Proof.
  destruct src as [|name|rows stop]; simpl.
  - intros [= <-]. by left.
  - intros [= <-]. right; left. eauto.
  - intros H. do 2 right. exists rows, stop. split; [done|].
    apply bind_Raise in H as [H|(st & Hst & H)].
    + apply load_Raise_rows, load_Raise_cases in H as [?|?]; auto.
    + destruct stop as [name|]; [|done]. injection H as <-.
      do 2 right. exists name, (lines st). split_and!; [done..|].
      unfold load. by rewrite Hst.
Qed.

Lemma load_returns rows :
  Forall (fields_parse int) rows → ¬ mismatch_row int rows →
  ∃ out, load int (Some rows) = Ok out.
Proof.
  intros Hparse Hnone. destruct (load int (Some rows)) as [out|e] eqn:E.
  - by exists out.
  - apply load_Raise_cases in E as [[Hm _]|[(raw & Hin & Hnot) _]]; [done|].
    destruct Hnot. by eapply Forall_forall.
Qed.

Lemma nr_not_star : "nr" ∉ STAR_COLUMNS.
Proof. apply (bool_decide_unpack _). by vm_compute. Qed.

Lemma parse_star_ids_delete_nr raw :
  parse_star_ids int (delete "nr" raw) = parse_star_ids int raw.
Proof.
  unfold parse_star_ids. f_equal. apply mapM_result_ext.
  intros column Hcol. rewrite get_delete_ne; [done|].
  intros <-. by apply nr_not_star.
Qed.

Lemma load_inv_output csv out :
  load int csv = Ok out → ∃ st, out = lines st ∧ load_inv st.
Proof.
  intros (rows & st & -> & Hst & ->)%load_Ok. exists st. split; [done|].
  eapply load_inv_load_rows; [|done]. apply load_inv_init.
Qed.

End ParserFacts.

Section ParserTheorems.

Variable int : string → option Z.

(** C3, as the code has it. A mismatched row at or after the first
    non-blank abbreviation, among the rows the reader yields, makes [load]
    raise, and the count-mismatch error is raised at such a row only.  But
    [load] raises in other cases too: the file is missing, [open] or the
    reader raises, or a count or star cell is not an integer.  When the file
    opens, the reader yields its rows to the end and every count and star
    cell parses, [load] raises if and only if there is such a row, and
    returns a list otherwise.  A row declaring 0 with no star id passes the
    check and adds nothing; and a [load] that raises returns no list. *)
Theorem load_raises_on_count_mismatch rows :
  (∀ stop, mismatch_row int rows →
     raises (load_file int (yields rows stop))) ∧
  (∀ stop code total parsed,
     load_file int (yields rows stop) =
       Raise (ValueError (count_mismatch code total parsed)) →
     mismatch_row int rows) ∧
  (∀ src e, load_file int src = Raise e →
     (src = no_file ∧ e = FileNotFoundError) ∨
     (∃ name, src = cannot_open name ∧ e = OpenError name) ∨
     (∃ rows' stop, src = yields rows' stop ∧
        ((mismatch_row int rows' ∧
          ∃ code total parsed,
            e = ValueError (count_mismatch code total parsed)) ∨
         ((∃ raw, raw ∈ rows' ∧ ¬ fields_parse int raw) ∧
          ∃ text, e = ValueError (invalid_literal text)) ∨
         (∃ name out, stop = Some name ∧ e = ReaderError name ∧
            load int (Some rows') = Ok out)))) ∧
  (Forall (fields_parse int) rows →
     (raises (load_file int (yields rows None)) ↔ mismatch_row int rows) ∧
     (¬ mismatch_row int rows →
        ∃ out, load_file int (yields rows None) = Ok out)) ∧
  (∀ st raw,
     _parse_int int (get raw "nr") = Ok (Some 0) →
     parse_star_ids int raw = Ok [] →
     ∃ st', load_row int st raw = Ok st' ∧ lines st' = lines st) ∧
  (∀ src, raises (load_file int src) → ∀ out, load_file int src ≠ Ok out).
Proof.
  split_and!.
  - intros stop [e He]%mismatch_row_raises. exists e.
    by apply load_file_Raise_rows.
  - intros stop code total parsed
      [[? [=]]|[(? & [=] & _)|(rows' & stop' & [= <- <-] & H)]]%load_file_Raise_cases.
    destruct H as [[Hm _]|[[_ (? & [=])]|(? & ? & _ & [=] & _)]]. done.
  - apply load_file_Raise_cases.
  - intros Hparse. rewrite load_file_yields_None. split.
    + split; [|apply mismatch_row_raises].
      intros [e [[Hm _]|[(raw & Hin & Hnot) _]]%load_Raise_cases]; [done|].
      destruct Hnot. by eapply Forall_forall.
    + by apply load_returns.
  - intros st raw Hnr Hids.
    assert (∀ st0, load_line int st0 raw = Ok st0) as Hline.
    { intros st0. apply load_line_Ok. exists (Some 0), [].
      split_and!; [done..| |by left]. by intros t [= <-]. }
    destruct (decide (abbr_of raw = "")) as [Ha|Ha].
    + destruct (decide (current_constellation st = "")) as [Hc|Hc].
      * rewrite load_row_skip by done. eauto.
      * rewrite load_row_carry, Hline by done. eauto.
    + rewrite load_row_new, Hline by done. eauto.
  - intros src [e He] out. congruence.
Qed.

(** C6. A row with a blank abbreviation that follows a row with a
    non-blank one adds at most one record to the output, and that record
    carries the most recently seen non-blank code.  After any iteration the
    current constellation is the row's own abbreviation when that is
    non-blank and is unchanged otherwise, so after any run of rows it is
    the last non-blank abbreviation of the run. *)
Theorem load_blank_abbreviation_inherits pre raw post out :
  load int (Some (pre ++ raw :: post)) = Ok out →
  abbr_of raw = "" →
  last_code pre ≠ "" →
  (∃ before produced after,
     load int (Some pre) = Ok before ∧
     load int (Some (pre ++ [raw])) = Ok (before ++ produced) ∧
     out = before ++ produced ++ after ∧
     (produced = [] ∨
      ∃ n ids, ids ≠ [] ∧ parse_star_ids int raw = Ok ids ∧
        produced = [{| constellation := last_code pre;
                       line_number := n; star_ids := ids |}])) ∧
  (∀ st row st',
     load_row int st row = Ok st' →
     current_constellation st' =
     if decide (abbr_of row = "") then current_constellation st
     else abbr_of row) ∧
  (∀ rows st,
     load_rows int load_init rows = Ok st →
     current_constellation st = last_code rows).
Proof.
  intros (rows & st & [= <-] & Hst & ->)%load_Ok Ha Hcode.
  split_and!; [|apply load_row_current|apply load_rows_last_code].
  rewrite load_rows_app in Hst.
  apply bind_Ok in Hst as (st1 & Hpre & Hst). simpl in Hst.
  apply bind_Ok in Hst as (st2 & Hraw & Hpost).
  destruct (load_row_lines _ _ _ _ Hraw) as (produced & Hl2 & Hproduced).
  destruct (load_rows_lines _ _ _ _ Hpost) as (added & Hl).
  exists (lines st1), produced, added. split_and!.
  - apply load_Ok. eauto.
  - apply load_Ok. exists (pre ++ [raw]), st2. split_and!; [done| |done].
    rewrite load_rows_app, Hpre. simpl. by rewrite Hraw.
  - by rewrite Hl, Hl2, app_assoc.
  - rewrite (load_row_current _ _ _ _ Hraw), decide_True in Hproduced by done.
    by rewrite (load_rows_last_code _ _ _ Hpre) in Hproduced.
Qed.

(** C9, as the code has it. A count column or star column that the
    header lacks is read as [None], which [_parse_int] turns into an absent
    value as it does a blank cell: [load] returns, or raises, exactly what it
    does on the same rows with that column present and blank, so a missing
    column raises nothing of its own.  Without the count column no count
    check can fail, and [load] returns whenever the star cells parse.  But
    [load] can still fail: a missing star column leaves a row that counted
    that cell with a declared count that no longer matches. *)
Theorem load_missing_column_as_blank column blank rows :
  column ∈ "nr" :: STAR_COLUMNS →
  strip blank = "" →
  (∀ raw : row,
     _parse_int int (get (delete column raw) column) = Ok None ∧
     _parse_int int (get (<[column := Some blank]> raw) column) = Ok None) ∧
  load int (Some (delete column <$> rows)) =
  load int (Some (<[column := Some blank]> <$> rows)) ∧
  (∀ stop,
     load_file int (yields (delete column <$> rows) stop) =
     load_file int (yields (<[column := Some blank]> <$> rows) stop)) ∧
  (∀ stop code total parsed,
     load_file int (yields (delete "nr" <$> rows) stop) ≠
     Raise (ValueError (count_mismatch code total parsed))) ∧
  (Forall (λ raw, ∃ ids, parse_star_ids int raw = Ok ids) rows →
   ∃ out, load_file int (yields (delete "nr" <$> rows) None) = Ok out).
Proof.
  intros Hcol Hblank.
  assert (Forall2 (rows_agree int) (delete column <$> rows)
            (<[column := Some blank]> <$> rows)) as Hagree.
  { apply Forall2_fmap, Forall_Forall2_diag, Forall_forall.
    intros raw _. by apply rows_agree_missing_blank. }
  assert (¬ mismatch_row int (delete "nr" <$> rows)) as Hnone.
  { intros (i & raw & Hi & _ & (t & ids & Ht & _)).
    apply list_lookup_fmap_Some in Hi as (raw0 & -> & _).
    by rewrite get_delete_eq in Ht. }
  split_and!.
  - intros raw.
    by rewrite get_delete_eq, get_insert_eq, _parse_int_blank.
  - unfold load. f_equal. by apply load_rows_agree.
  - intros stop. unfold load_file. f_equal. by apply load_rows_agree.
  - intros stop code total parsed
      [[? [=]]|[(? & [=] & _)|(rows' & stop' & [= <- <-] & H)]]%load_file_Raise_cases.
    destruct H as [[Hm _]|[[_ (? & [=])]|(? & ? & _ & [=] & _)]]. done.
  - intros Hstars. rewrite load_file_yields_None.
    apply load_returns; [|done].
    apply Forall_fmap, Forall_forall. intros raw Hraw. split.
    + exists None. simpl. by rewrite get_delete_eq.
    + rewrite Forall_forall in Hstars.
      destruct (Hstars raw Hraw) as [ids Hids]. exists ids.
      simpl. by rewrite parse_star_ids_delete_nr.
Qed.

(** C4. For every constellation code, the line numbers of that code's
    records in the output of [load], taken in output order, are 1, 2, ..., k.
    An iteration moves a counter only when its row yields at least one star
    id, and then by one and for the row's code alone; a row whose star
    columns are all blank adds no record and leaves every counter as it
    was. *)
Theorem load_line_numbers_dense csv out :
  load int csv = Ok out →
  (∀ code,
     line_number <$> records_of code out =
     Z.of_nat <$> seq 1 (length (records_of code out))) ∧
  (∀ st raw st',
     load_row int st raw = Ok st' →
     (∀ code, count_of st' code ≠ count_of st code →
        ∃ ids, ids ≠ [] ∧ parse_star_ids int raw = Ok ids ∧
               code = current_constellation st' ∧
               count_of st' code = count_of st code + 1) ∧
     ((∀ column, column ∈ STAR_COLUMNS →
         _parse_int int (get raw column) = Ok None) →
      lines st' = lines st ∧
      ∀ code, count_of st' code = count_of st code)).
Proof.
  intros (rows & st & -> & Hst & ->)%load_Ok. split.
  - intros code. eapply inv_dense, load_inv_load_rows; [|done].
    apply load_inv_init.
  - intros st0 raw st' [(Hl & Hc & _)|(ids & Hne & Hids & Hl & Hc & Ho)]%load_row_step.
    + split; [|done]. intros code Hcode. by destruct Hcode.
    + split.
      * intros code Hcode. exists ids. split_and!; try done.
        -- destruct (decide (code = current_constellation st')); [done|].
           destruct Hcode. by apply Ho.
        -- destruct (decide (code = current_constellation st')) as [->|]; [done|].
           destruct Hcode. by apply Ho.
      * intros Hblank%parse_star_ids_blank. congruence.
Qed.

(** C5, as the code has it. Every record [load] produces has from 1 to 31
    star ids: a row with a single star id yields a record, and nothing in
    [load] asks for a second one. *)
Theorem load_star_ids_length csv out l :
  load int csv = Ok out → l ∈ out →
  (1 ≤ length (star_ids l) ≤ 31)%nat.
Proof.
  intros (st & -> & Hinv)%load_inv_output Hl. by eapply inv_stars.
Qed.

End ParserTheorems.

(** ** Facts about the database *)

Lemma db_bind_Ok {A B} (m : db A) (k : A → db B) conn b conn' :
  db_bind m k conn = (Ok b, conn') ↔
  ∃ a conn1, m conn = (Ok a, conn1) ∧ k a conn1 = (Ok b, conn').
Proof.
  unfold db_bind. destruct (m conn) as [[a|e] conn1]; split.
  - eauto.
  - by intros (? & ? & [= <- <-] & ?).
  - discriminate.
  - by intros (? & ? & ? & _).
Qed.

Lemma db_bind_Raise {A B} (m : db A) (k : A → db B) conn e conn' :
  db_bind m k conn = (Raise e, conn') ↔
  m conn = (Raise e, conn') ∨
  ∃ a conn1, m conn = (Ok a, conn1) ∧ k a conn1 = (Raise e, conn').
Proof.
  unfold db_bind. destruct (m conn) as [[a|e1] conn1]; split.
  - eauto.
  - by intros [?|(? & ? & [= <- <-] & ?)].
  - intros [= -> ->]. by left.
  - intros [[= -> ->]|(? & ? & ? & _)]; done.
Qed.

(** *** The committed file during the inserts *)

Lemma keeps_file_weaken {A} (m : db A) :
  keeps_file m → keeps_file_in_transaction m.
Proof. intros H conn r conn' Ht Hm. destruct (H _ _ _ Hm). auto. Qed.

Lemma keeps_file_ret {A} (a : A) : keeps_file (db_ret a).
Proof. by intros conn r conn' [= <- <-]. Qed.

Lemma keeps_file_raise {A} e : keeps_file (@db_raise A e).
Proof. by intros conn r conn' [= <- <-]. Qed.

Lemma keeps_file_bind {A B} (m : db A) (k : A → db B) :
  keeps_file m → (∀ a, keeps_file (k a)) → keeps_file (db_bind m k).
Proof.
  intros Hm Hk conn r conn'. unfold db_bind.
  destruct (m conn) as [[a|e] conn1] eqn:E.
  - intros Hka. destruct (Hm _ _ _ E) as [E1 ?], (Hk _ _ _ _ Hka) as [E2 ?].
    split; [congruence|auto].
  - intros [= <- <-]. by apply (Hm _ _ _ E).
Qed.

Lemma keeps_file_in_transaction_bind {A B} (m : db A) (k : A → db B) :
  keeps_file_in_transaction m → (∀ a, keeps_file_in_transaction (k a)) →
  keeps_file_in_transaction (db_bind m k).
Proof.
  intros Hm Hk conn r conn' Ht. unfold db_bind.
  destruct (m conn) as [[a|e] conn1] eqn:E.
  - intros Hka. destruct (Hm _ _ _ Ht E) as [E1 Ht1].
    destruct (Hk _ _ _ _ Ht1 Hka) as [E2 ?]. split; [congruence|done].
  - intros [= <- <-]. by apply (Hm _ _ _ Ht E).
Qed.

Lemma keeps_file_begin {A} (k : db A) :
  keeps_file_in_transaction k →
  keeps_file (db_bind begin_implicit (λ _, k)).
Proof.
  intros Hk conn r conn'. unfold db_bind, begin_implicit.
  destruct (transaction conn) as [d|] eqn:E.
  - intros Hr. destruct (Hk conn r conn') as [E1 ?]; [by rewrite E|done|done].
  - intros Hr. apply Hk in Hr as [E1 ?]; [done|]. simpl. eauto.
Qed.

Lemma keeps_file_prepare t : keeps_file (prepare t).
Proof.
  intros conn r conn'. unfold prepare.
  by destruct (table_exists _ _); intros [= <- <-].
Qed.

Lemma keeps_file_bind_int n : keeps_file (bind_int n).
Proof.
  unfold bind_int. destruct (fits_int64 n).
  - apply keeps_file_ret.
  - apply keeps_file_raise.
Qed.

Lemma keeps_file_step {A} (f : database → result (A * database)) :
  keeps_file_in_transaction (step f).
Proof.
  intros conn r conn' [d Hd]. unfold step, db_bind, write, db_ret.
  destruct (f (view conn)) as [[a d1]|e]; rewrite ?Hd.
  - by intros [= <- <-].
  - by intros [= <- <-].
Qed.

Lemma keeps_file_for_each {A} (f : A → db unit) l :
  (∀ x, keeps_file (f x)) → keeps_file (for_each f l).
Proof.
  intros Hf. induction l as [|x l IH]; simpl.
  - apply keeps_file_ret.
  - apply keeps_file_bind; auto.
Qed.

Lemma keeps_file_in_transaction_for_each {A} (f : A → db unit) l :
  (∀ x, keeps_file_in_transaction (f x)) →
  keeps_file_in_transaction (for_each f l).
Proof.
  intros Hf. induction l as [|x l IH]; simpl.
  - apply keeps_file_weaken, keeps_file_ret.
  - apply keeps_file_in_transaction_bind; auto.
Qed.

Lemma keeps_file_insert_constellation_line code number count :
  keeps_file (insert_constellation_line code number count).
Proof.
  unfold insert_constellation_line.
  apply keeps_file_bind; [apply keeps_file_prepare|intros _].
  apply keeps_file_begin.
  apply keeps_file_in_transaction_bind;
    [apply keeps_file_weaken, keeps_file_bind_int|intros ?].
  apply keeps_file_in_transaction_bind;
    [apply keeps_file_weaken, keeps_file_bind_int|intros ?].
  apply keeps_file_step.
Qed.

Lemma keeps_file_insert_constellation_line_star params :
  keeps_file_in_transaction (insert_constellation_line_star params).
Proof.
  destruct params as [[line_id index] star_id]. simpl.
  do 3 (apply keeps_file_in_transaction_bind;
          [apply keeps_file_weaken, keeps_file_bind_int|intros ?]).
  apply keeps_file_step.
Qed.

Lemma keeps_file_executemany params :
  keeps_file (executemany_constellation_line_star params).
Proof.
  unfold executemany_constellation_line_star.
  apply keeps_file_bind; [apply keeps_file_prepare|intros _].
  apply keeps_file_begin, keeps_file_in_transaction_for_each.
  apply keeps_file_insert_constellation_line_star.
Qed.

Lemma keeps_file__insert_lines out : keeps_file (_insert_lines out).
Proof.
  apply keeps_file_for_each. intros l.
  apply keeps_file_bind; [apply keeps_file_insert_constellation_line|].
  intros ?. apply keeps_file_executemany.
Qed.

(** *** The schema script *)

Lemma filter_indexes_both (idx : list (string * table_name)) :
  filter (λ ix, ix.2 ≠ tbl_constellation_line)
    (filter (λ ix, ix.2 ≠ tbl_constellation_line_star) idx) = [].
Proof.
  induction idx as [|[name []] idx IH]; [done|..].
  - rewrite (filter_cons_True (λ ix, ix.2 ≠ tbl_constellation_line_star))
      by done.
    by rewrite filter_cons_False by (by intros []).
  - by rewrite filter_cons_False by (by intros []).
Qed.

(** Whatever the file held, and whatever was pending, the script leaves
    the empty schema in the file and no transaction open. *)
Lemma _create_schema_spec conn :
  _create_schema conn = (Ok tt, connect empty_schema).
Proof.
  unfold _create_schema, executescript, db_bind at 1, commit.
  generalize (view conn). intros [lt st idx].
  unfold run_script, db_bind, step, run_statement, view; simpl.
  by rewrite filter_indexes_both.
Qed.

(** *** What a successful statement leaves in view *)

Lemma prepare_Ok t conn u conn' :
  prepare t conn = (Ok u, conn') → conn' = conn.
Proof. unfold prepare. destruct u. by destruct (table_exists _ _); intros [= <-]. Qed.

Lemma begin_implicit_Ok conn u conn' :
  begin_implicit conn = (Ok u, conn') → view conn' = view conn.
Proof.
  unfold begin_implicit, view. destruct u.
  destruct (transaction conn) eqn:E; intros [= <-]; simpl; by rewrite ?E.
Qed.

Lemma bind_int_Ok n conn m conn' :
  bind_int n conn = (Ok m, conn') →
  m = n ∧ conn' = conn ∧ fits_int64 n = true.
Proof.
  unfold bind_int. destruct (fits_int64 n); [|done].
  by intros [= <- <-].
Qed.

Lemma step_Ok {A} (f : database → result (A * database)) conn a conn' :
  step f conn = (Ok a, conn') → f (view conn) = Ok (a, view conn').
Proof.
  unfold step, db_bind, write, db_ret, view.
  destruct (f _) as [[a' d]|e]; [|done].
  destruct (transaction conn); by intros [= <- <-].
Qed.

Lemma insert_constellation_line_Ok code number count conn rowid conn' :
  insert_constellation_line code number count conn = (Ok rowid, conn') →
  ∃ t, line_table (view conn) = Some t ∧
    rowid = Z.max (constellation_line.seq t)
                  (max_rowid (constellation_line.rows t)) + 1 ∧
    view conn' =
      {| line_table :=
           Some {| constellation_line.rows :=
                     constellation_line.rows t ++
                     [{| constellation_line.line_id := rowid;
                         constellation_line.constellation := code;
                         constellation_line.line_number := number;
                         constellation_line.star_count := count |}];
                   constellation_line.seq := rowid |};
         star_table := star_table (view conn);
         indexes := indexes (view conn) |}.
Proof.
  unfold insert_constellation_line.
  intros (? & conn1 & ->%prepare_Ok & H)%db_bind_Ok.
  apply db_bind_Ok in H as (? & conn2 & Hview%begin_implicit_Ok & H).
  apply db_bind_Ok in H as (? & ? & (-> & -> & _)%bind_int_Ok & H).
  apply db_bind_Ok in H as (? & ? & (-> & -> & _)%bind_int_Ok & H).
  apply step_Ok in H. rewrite Hview in H.
  destruct (line_table (view conn)) as [t|]; [|done].
  exists t. destruct (fits_int64 _); [|done].
  injection H as <- <-. done.
Qed.

Lemma insert_constellation_line_star_Ok params conn u conn' :
  insert_constellation_line_star params conn = (Ok u, conn') →
  ∃ stars, star_table (view conn) = Some stars ∧
    view conn' =
      {| line_table := line_table (view conn);
         star_table := Some (stars ++ [star_row_of params]);
         indexes := indexes (view conn) |}.
Proof.
  destruct params as [[line_id index] star_id]. simpl.
  intros (? & ? & (-> & -> & _)%bind_int_Ok & H)%db_bind_Ok.
  apply db_bind_Ok in H as (? & ? & (-> & -> & _)%bind_int_Ok & H).
  apply db_bind_Ok in H as (? & ? & (-> & -> & _)%bind_int_Ok & H).
  apply step_Ok in H.
  destruct (star_table (view conn)) as [stars|]; [|done].
  exists stars. destruct (existsb _ _); [done|].
  injection H as <-. done.
Qed.

Lemma for_each_insert_star_Ok params conn u conn' stars :
  for_each insert_constellation_line_star params conn = (Ok u, conn') →
  star_table (view conn) = Some stars →
  view conn' =
    {| line_table := line_table (view conn);
       star_table := Some (stars ++ (star_row_of <$> params));
       indexes := indexes (view conn) |}.
Proof.
  destruct u. revert conn stars.
  induction params as [|p params IH]; intros conn stars; simpl.
  - intros [= <-] Hs. rewrite app_nil_r, <- Hs. by destruct (view conn).
  - intros (? & conn1 & (stars' & Hs' & Hv)%insert_constellation_line_star_Ok
            & H)%db_bind_Ok Hs.
    rewrite Hs in Hs'. injection Hs' as <-.
    rewrite (IH _ (stars ++ [star_row_of p]) H) by (by rewrite Hv).
    rewrite Hv; simpl. by rewrite <- app_assoc.
Qed.

Lemma executemany_Ok params conn u conn' :
  executemany_constellation_line_star params conn = (Ok u, conn') →
  ∃ stars, star_table (view conn) = Some stars ∧
    view conn' =
      {| line_table := line_table (view conn);
         star_table := Some (stars ++ (star_row_of <$> params));
         indexes := indexes (view conn) |}.
Proof.
  unfold executemany_constellation_line_star.
  intros (? & conn1 & Hprep & H)%db_bind_Ok.
  assert (conn1 = conn) as -> by by eapply prepare_Ok.
  unfold prepare, table_exists in Hprep.
  destruct (star_table (view conn)) as [stars|] eqn:Hs; [|done].
  apply db_bind_Ok in H as (? & conn2 & Hview%begin_implicit_Ok & H).
  exists stars. split; [done|].
  rewrite <- Hview. apply (for_each_insert_star_Ok _ _ _ _ _ H).
  by rewrite Hview.
Qed.

Lemma max_rowid_snoc_le rows r k :
  max_rowid rows ≤ k → constellation_line.line_id r ≤ k →
  max_rowid (rows ++ [r]) ≤ k.
Proof.
  induction rows as [|r' rows IH]; simpl; intros H Hr.
  - lia.
  - apply Z.max_lub; [lia|]. apply IH; lia.
Qed.

Lemma star_rows_of_params line_id l :
  star_row_of <$>
    ((λ '(index, star_id), (line_id, index + 1, star_id))
       <$> enumerate (star_ids l)) =
  star_rows_of line_id l.
Proof.
  unfold enumerate, star_rows_of.
  rewrite <- list_fmap_compose, fmap_imap. by apply imap_ext.
Qed.

Lemma _insert_lines_Ok out conn u conn' rows k stars idx :
  _insert_lines out conn = (Ok u, conn') →
  view conn =
    {| line_table := Some {| constellation_line.rows := rows;
                             constellation_line.seq := k |};
       star_table := Some stars; indexes := idx |} →
  max_rowid rows ≤ k →
  view conn' =
    {| line_table :=
         Some {| constellation_line.rows := rows ++ line_rows (k + 1) out;
                 constellation_line.seq := k + Z.of_nat (length out) |};
       star_table := Some (stars ++ star_rows (k + 1) out);
       indexes := idx |}.
Proof.
  destruct u. unfold _insert_lines.
  revert conn rows k stars.
  induction out as [|l out IH]; intros conn rows k stars; simpl.
  - intros [= <-] -> _. by rewrite !app_nil_r, Z.add_0_r.
  - intros (? & conn2 & H & Hrest)%db_bind_Ok Hview Hmax.
    apply db_bind_Ok in H as (rowid & conn1 & Hline & Hstars).
    apply insert_constellation_line_Ok in Hline as (t & Ht & -> & Hv1).
    rewrite Hview in Ht, Hv1. simpl in Ht, Hv1. injection Ht as <-.
    simpl in *. rewrite Z.max_l in * by done.
    apply executemany_Ok in Hstars as (stars' & Hs & Hv2).
    rewrite Hv1 in Hs, Hv2. simpl in Hs, Hv2. injection Hs as <-.
    rewrite star_rows_of_params in Hv2.
    rewrite (IH _ _ _ _ Hrest Hv2).
    + rewrite <- !app_assoc. simpl. do 3 f_equal. lia.
    + apply max_rowid_snoc_le; simpl; lia.
Qed.

(** The import, with the schema script run: what is left depends on the
    records alone, not on what the file held. *)
Lemma import_to_db_unfold d out :
  import_to_db d out =
  match _insert_lines out (connect empty_schema) with
  | (Ok _, conn) => (Ok tt, view conn)
  | (Raise e, conn) => (Raise e, file conn)
  end.
Proof.
  unfold import_to_db, with_connection, pragma.
  unfold db_bind at 1 2 3, db_ret. rewrite _create_schema_spec.
  unfold db_bind.
  by destruct (_insert_lines out (connect empty_schema)) as [[u|e] conn].
Qed.

Lemma import_to_db_Ok d out u d' :
  import_to_db d out = (Ok u, d') → d' = imported out.
Proof.
  rewrite import_to_db_unfold.
  destruct (_insert_lines out (connect empty_schema)) as [[u'|e] conn] eqn:E;
    [|done].
  destruct u. intros [= <-].
  by apply (_insert_lines_Ok _ _ _ _ [] 0 [] (indexes empty_schema) E).
Qed.

(** *** The rows of an import *)

Lemma length_star_rows_of line_id l :
  length (star_rows_of line_id l) = length (star_ids l).
Proof. unfold star_rows_of. apply length_imap. Qed.

Lemma length_line_rows first out : length (line_rows first out) = length out.
Proof.
  revert first. induction out as [|l out IH]; intros first; simpl; auto.
Qed.

Lemma length_star_rows first out :
  length (star_rows first out) = sum_list (length ∘ star_ids <$> out).
Proof.
  revert first. induction out as [|l out IH]; intros first; simpl; [done|].
  by rewrite length_app, length_star_rows_of, IH.
Qed.

Lemma line_rows_lookup first out i r :
  line_rows first out !! i = Some r →
  ∃ l, out !! i = Some l ∧ r = line_row_of (first + Z.of_nat i) l.
Proof.
  revert first i. induction out as [|l out IH]; intros first i; [done|].
  destruct i as [|i]; simpl.
  - intros [= <-]. exists l. by rewrite Z.add_0_r.
  - intros (l' & Hl' & ->)%IH. exists l'. split; [done|]. f_equal. lia.
Qed.

Lemma imap_indices {A} (l : list A) k :
  imap (λ index _, Z.of_nat (k + index) + 1) l =
  Z.of_nat <$> seq (S k) (length l).
Proof.
  revert k. induction l as [|x l IH]; intros k; simpl; [done|].
  f_equal.
  - f_equal. lia.
  - rewrite <- IH. apply imap_ext. intros i y _. simpl. do 2 f_equal. lia.
Qed.

Lemma sequence_index_star_rows_of line_id l :
  constellation_line_star.sequence_index <$> star_rows_of line_id l =
  Z.of_nat <$> seq 1 (length (star_ids l)).
Proof.
  unfold star_rows_of. rewrite fmap_imap, <- (imap_indices _ 0).
  by apply imap_ext.
Qed.

Lemma bsc_number_star_rows_of line_id l :
  constellation_line_star.bsc_number <$> star_rows_of line_id l = star_ids l.
Proof.
  unfold star_rows_of. rewrite fmap_imap.
  rewrite (imap_ext _ (λ _, id)) by done.
  induction (star_ids l) as [|v ids IH]; simpl; [done|]. f_equal. exact IH.
Qed.

Lemma line_id_star_rows_of line_id l s :
  s ∈ star_rows_of line_id l → constellation_line_star.line_id s = line_id.
Proof.
  unfold star_rows_of. intros (i & v & -> & _)%elem_of_lookup_imap. done.
Qed.

Lemma line_id_star_rows first out s :
  s ∈ star_rows first out → first ≤ constellation_line_star.line_id s.
Proof.
  revert first. induction out as [|l out IH]; intros first; simpl.
  - by intros ?%elem_of_nil.
  - intros [->%line_id_star_rows_of|?%IH]%elem_of_app; lia.
Qed.

Lemma stars_of_line_all line_id stars :
  (∀ s, s ∈ stars → constellation_line_star.line_id s = line_id) →
  stars_of_line line_id stars = stars.
Proof.
  unfold stars_of_line. induction stars as [|s stars IH]; intros H; [done|].
  rewrite filter_cons_True by (apply H; left).
  f_equal. apply IH. intros s' Hs'. apply H. by right.
Qed.

Lemma stars_of_line_none line_id stars :
  (∀ s, s ∈ stars → constellation_line_star.line_id s ≠ line_id) →
  stars_of_line line_id stars = [].
Proof.
  unfold stars_of_line. induction stars as [|s stars IH]; intros H; [done|].
  rewrite filter_cons_False by (apply H; left).
  apply IH. intros s' Hs'. apply H. by right.
Qed.

Lemma stars_of_line_app line_id stars1 stars2 :
  stars_of_line line_id (stars1 ++ stars2) =
  stars_of_line line_id stars1 ++ stars_of_line line_id stars2.
Proof. apply filter_app. Qed.

Lemma stars_of_line_star_rows_of line_id l :
  stars_of_line line_id (star_rows_of line_id l) = star_rows_of line_id l.
Proof. apply stars_of_line_all. intros s. apply line_id_star_rows_of. Qed.

Lemma stars_of_line_star_rows first out i l :
  out !! i = Some l →
  stars_of_line (first + Z.of_nat i) (star_rows first out) =
  star_rows_of (first + Z.of_nat i) l.
Proof.
  revert first i. induction out as [|l0 out IH]; intros first i; [done|].
  simpl. rewrite stars_of_line_app.
  destruct i as [|i]; simpl.
  - intros [= <-]. rewrite Z.add_0_r.
    rewrite (stars_of_line_star_rows_of first l0).
    rewrite (stars_of_line_none first (star_rows (first + 1) out)).
    + by rewrite app_nil_r.
    + intros s ?%line_id_star_rows. lia.
  - intros Hl.
    rewrite (stars_of_line_none _ (star_rows_of first l0)).
    + replace (first + Z.of_nat (S i)) with (first + 1 + Z.of_nat i) by lia.
      simpl. by apply (IH (first + 1)).
    + intros s ->%line_id_star_rows_of. lia.
Qed.

Lemma star_rows_elem first out l v :
  l ∈ out → v ∈ star_ids l →
  ∃ s, s ∈ star_rows first out ∧ constellation_line_star.bsc_number s = v.
Proof.
  revert first. induction out as [|l0 out IH]; intros first.
  - by intros ?%elem_of_nil.
  - intros [->|Hl]%elem_of_cons Hv; simpl.
    + rewrite <- (bsc_number_star_rows_of first l0) in Hv.
      apply list_elem_of_fmap in Hv as (s & -> & Hs).
      exists s. split; [|done]. apply elem_of_app. by left.
    + destruct (IH (first + 1) Hl Hv) as (s & Hs & <-).
      exists s. split; [|done]. apply elem_of_app. by right.
Qed.

(** *** When the inserts go through *)

Lemma fits_int64_spec n : fits_int64 n = true ↔ - 2 ^ 63 ≤ n ≤ 2 ^ 63 - 1.
Proof. unfold fits_int64. rewrite andb_true_iff, !Z.leb_le. done. Qed.

Lemma db_bind_eq {A B} (m : db A) (k : A → db B) conn a conn1 :
  m conn = (Ok a, conn1) → db_bind m k conn = k a conn1.
Proof. intros H. unfold db_bind. by rewrite H. Qed.

Lemma bind_int_fits n conn :
  fits_int64 n = true → bind_int n conn = (Ok n, conn).
Proof. intros H. unfold bind_int. by rewrite H. Qed.

Lemma prepare_exists t conn :
  table_exists t (view conn) = true → prepare t conn = (Ok tt, conn).
Proof. intros H. unfold prepare. by rewrite H. Qed.

Lemma begin_implicit_total conn :
  ∃ conn', begin_implicit conn = (Ok tt, conn') ∧ view conn' = view conn.
Proof.
  unfold begin_implicit, view. destruct (transaction conn) eqn:E.
  - exists conn. by rewrite E.
  - eauto.
Qed.

Lemma step_total {A} (f : database → result (A * database)) conn a d :
  f (view conn) = Ok (a, d) →
  ∃ conn', step f conn = (Ok a, conn') ∧ view conn' = d.
Proof.
  intros H. unfold step, db_bind, write, db_ret. rewrite H.
  destruct (transaction conn); eauto.
Qed.

Lemma insert_constellation_line_succeeds code number count conn t :
  line_table (view conn) = Some t →
  fits_int64 number = true → fits_int64 count = true →
  fits_int64 (Z.max (constellation_line.seq t)
                    (max_rowid (constellation_line.rows t)) + 1) = true →
  ∃ conn',
    insert_constellation_line code number count conn =
    (Ok (Z.max (constellation_line.seq t)
               (max_rowid (constellation_line.rows t)) + 1), conn').
Proof.
  intros Ht Hn Hc Hid. unfold insert_constellation_line.
  rewrite (db_bind_eq _ _ _ tt conn)
    by (apply prepare_exists; simpl; by rewrite Ht).
  destruct (begin_implicit_total conn) as (conn1 & Hb & Hv).
  rewrite (db_bind_eq _ _ _ _ _ Hb).
  rewrite (db_bind_eq _ _ _ _ _ (bind_int_fits _ _ Hn)).
  rewrite (db_bind_eq _ _ _ _ _ (bind_int_fits _ _ Hc)).
  edestruct (step_total (A:=Z)) as (conn' & -> & _); [|eauto].
  by rewrite Hv, Ht, Hid.
Qed.

Lemma insert_constellation_line_star_succeeds line_id index star_id conn stars :
  star_table (view conn) = Some stars →
  fits_int64 line_id = true → fits_int64 index = true →
  fits_int64 star_id = true →
  (∀ s, s ∈ stars → constellation_line_star.line_id s = line_id →
        constellation_line_star.sequence_index s < index) →
  ∃ conn',
    insert_constellation_line_star (line_id, index, star_id) conn =
    (Ok tt, conn').
Proof.
  intros Hs Hl Hi Hv Hfresh. unfold insert_constellation_line_star.
  rewrite (db_bind_eq _ _ _ _ _ (bind_int_fits _ _ Hl)).
  rewrite (db_bind_eq _ _ _ _ _ (bind_int_fits _ _ Hi)).
  rewrite (db_bind_eq _ _ _ _ _ (bind_int_fits _ _ Hv)).
  edestruct (step_total (A:=unit)) as (conn' & -> & _); [|eauto].
  cbv beta. rewrite Hs. destruct (existsb _ stars) eqn:E; [|done].
  apply existsb_exists in E as (s & Hin%list_elem_of_In & Hb).
  apply andb_true_iff in Hb as [H1%Z.eqb_eq H2%Z.eqb_eq].
  specialize (Hfresh s Hin H1). lia.
Qed.

Lemma for_each_insert_star_succeeds line_id ids :
  fits_int64 line_id = true →
  Forall (λ star_id, fits_int64 star_id = true) ids →
  ∀ first conn stars,
    star_table (view conn) = Some stars →
    Z.of_nat (first + length ids) < 2 ^ 63 →
    (∀ s, s ∈ stars → constellation_line_star.line_id s = line_id →
          constellation_line_star.sequence_index s ≤ Z.of_nat first) →
    ∃ conn',
      for_each insert_constellation_line_star
        (imap (λ index star_id,
                 (line_id, Z.of_nat (first + index) + 1, star_id)) ids) conn =
      (Ok tt, conn').
Proof.
  intros Hl. induction 1 as [|v ids Hv _ IH];
    intros first conn stars Hs Hlen Hfresh; simpl.
  - by exists conn.
  - destruct (insert_constellation_line_star_succeeds
                line_id (Z.of_nat (first + 0) + 1) v conn stars)
      as (conn1 & H1); [done|done| |done| |].
    { apply fits_int64_spec. simpl in Hlen. lia. }
    { intros s Hin Hid. specialize (Hfresh s Hin Hid). lia. }
    rewrite (db_bind_eq _ _ _ _ _ H1).
    apply insert_constellation_line_star_Ok in H1 as (stars' & Hs' & Hv1).
    rewrite Hs in Hs'. injection Hs' as <-.
    destruct (IH (S first) conn1 (stars ++ [star_row_of
                (line_id, Z.of_nat (first + 0) + 1, v)]))
      as (conn' & H').
    + by rewrite Hv1.
    + simpl in Hlen. lia.
    + intros s [Hin| ->%list_elem_of_singleton]%elem_of_app Hid.
      * specialize (Hfresh s Hin Hid). lia.
      * simpl. lia.
    + exists conn'. rewrite <- H'. f_equal.
      apply imap_ext. intros i y _. simpl. do 3 f_equal. lia.
Qed.

Lemma executemany_succeeds line_id ids conn stars :
  star_table (view conn) = Some stars →
  fits_int64 line_id = true →
  Forall (λ star_id, fits_int64 star_id = true) ids →
  Z.of_nat (length ids) < 2 ^ 63 →
  (∀ s, s ∈ stars → constellation_line_star.line_id s ≠ line_id) →
  ∃ conn',
    executemany_constellation_line_star
      ((λ '(index, star_id), (line_id, index + 1, star_id))
         <$> enumerate ids) conn = (Ok tt, conn').
Proof.
  intros Hs Hl Hids Hlen Hfresh. unfold executemany_constellation_line_star.
  rewrite (db_bind_eq _ _ _ tt conn)
    by (apply prepare_exists; simpl; by rewrite Hs).
  destruct (begin_implicit_total conn) as (conn1 & Hb & Hv).
  rewrite (db_bind_eq _ _ _ _ _ Hb).
  destruct (for_each_insert_star_succeeds line_id ids Hl Hids 0%nat conn1 stars)
    as (conn' & H').
  - by rewrite Hv.
  - done.
  - intros s Hin Hid. by destruct (Hfresh s Hin).
  - exists conn'. rewrite <- H'. f_equal.
    unfold enumerate. rewrite fmap_imap. by apply imap_ext.
Qed.

Lemma _insert_lines_succeeds out :
  Forall storable out →
  ∀ conn rows k stars idx,
    view conn =
      {| line_table := Some {| constellation_line.rows := rows;
                               constellation_line.seq := k |};
         star_table := Some stars; indexes := idx |} →
    max_rowid rows ≤ k → 0 ≤ k →
    k + Z.of_nat (length out) < 2 ^ 63 →
    (∀ s, s ∈ stars → constellation_line_star.line_id s ≤ k) →
    ∃ conn', _insert_lines out conn = (Ok tt, conn').
Proof.
  unfold _insert_lines.
  induction 1 as [|l out (Hn & Hids & Hlen) _ IH];
    intros conn rows k stars idx Hview Hmax Hk Hbound Hstars; simpl.
  - by exists conn.
  - destruct (insert_constellation_line_succeeds
                (constellation l) (line_number l)
                (Z.of_nat (length (star_ids l))) conn
                {| constellation_line.rows := rows;
                   constellation_line.seq := k |})
      as (conn1 & H1); simpl.
    { by rewrite Hview. }
    { done. }
    { apply fits_int64_spec. lia. }
    { apply fits_int64_spec. simpl in Hbound. lia. }
    rewrite Z.max_l in H1 by done.
    pose proof H1 as (t & Ht & _ & Hv1)%insert_constellation_line_Ok.
    rewrite Hview in Ht, Hv1. simpl in Ht, Hv1. injection Ht as <-.
    simpl in Hv1.
    destruct (executemany_succeeds (k + 1) (star_ids l) conn1 stars)
      as (conn2 & H2).
    { by rewrite Hv1. }
    { apply fits_int64_spec. simpl in Hbound. lia. }
    { done. }
    { done. }
    { intros s Hin. specialize (Hstars s Hin). lia. }
    pose proof H2 as (stars' & Hs' & Hv2)%executemany_Ok.
    rewrite Hv1 in Hs', Hv2. simpl in Hs', Hv2. injection Hs' as <-.
    rewrite star_rows_of_params in Hv2.
    destruct (IH conn2 _ (k + 1) _ idx Hv2) as (conn' & H').
    + apply max_rowid_snoc_le; simpl; lia.
    + lia.
    + simpl in Hbound. lia.
    + intros s [Hin| ->%line_id_star_rows_of]%elem_of_app.
      * specialize (Hstars s Hin). lia.
      * lia.
    + exists conn'.
      rewrite (db_bind_eq _ _ _ tt conn2); [done|].
      by rewrite (db_bind_eq _ _ _ _ _ H1).
Qed.

(** Records that SQLite can store are imported, whatever the file held. *)
Lemma import_to_db_succeeds d out :
  Forall storable out → Z.of_nat (length out) < 2 ^ 63 →
  import_to_db d out = (Ok tt, imported out).
Proof.
  intros Hout Hlen.
  destruct (_insert_lines_succeeds out Hout (connect empty_schema)
              [] 0 [] (indexes empty_schema)) as (conn' & H);
    [done|done|done|lia|by intros s ?%elem_of_nil|].
  pose proof (import_to_db_unfold d out) as Hu. rewrite H in Hu.
  rewrite Hu. f_equal. by apply import_to_db_Ok in Hu.
Qed.

(** ** The import *)

Section ImporterTheorems.

Variable int : string → option Z.

Lemma main_Ok csv d u d' :
  main int csv d = (Ok u, d') ↔
  ∃ out, load int csv = Ok out ∧ import_to_db d out = (Ok u, d').
Proof.
  unfold main. destruct (load int csv) as [out|e]; split.
  - eauto.
  - by intros (? & [= <-] & ?).
  - discriminate.
  - by intros (? & ? & _).
Qed.

Lemma parse_star_ids_elem raw ids column v :
  parse_star_ids int raw = Ok ids →
  column ∈ STAR_COLUMNS →
  _parse_int int (get raw column) = Ok (Some v) →
  v ∈ ids.
Proof.
  unfold parse_star_ids.
  intros (cells & Hcells%mapM_result_Forall2 & [= <-])%bind_Ok Hcol Hv.
  apply list_elem_of_lookup in Hcol as (i & Hi).
  destruct (Forall2_lookup_l _ _ _ _ _ Hcells Hi) as (cell & Hcell & Hparse).
  rewrite Hv in Hparse. injection Hparse as <-.
  apply list_elem_of_omap. exists (Some v). split; [|done].
  by eapply list_elem_of_lookup_2.
Qed.

Lemma load_line_number_bound csv out l :
  load int csv = Ok out → l ∈ out →
  1 ≤ line_number l ≤ Z.of_nat (length out).
Proof.
  intros (rows & st & -> & Hst & ->)%load_Ok Hl.
  pose proof (load_inv_load_rows _ _ _ _ load_inv_init Hst) as Hinv.
  pose proof (inv_dense _ Hinv (constellation l)) as Hd.
  assert (line_number l ∈ line_number <$> records_of (constellation l) (lines st))
    as Hn.
  { apply list_elem_of_fmap. exists l. split; [done|].
    unfold records_of. by apply list_elem_of_filter. }
  rewrite Hd in Hn. apply list_elem_of_fmap in Hn as (n & -> & Hn).
  apply elem_of_seq in Hn.
  pose proof (length_filter (λ l0, constellation l0 = constellation l) (lines st)).
  unfold records_of in Hn. lia.
Qed.

(** C1, as the code has it. When an insert of [import_to_db] raises, no
    row of the failed run is left in the file, and no row of an earlier
    run either: the schema script had already dropped and recreated the
    tables in the file before the first insert opened the transaction that
    the failure rolls back, so both tables are there and empty. *)
Theorem import_failure_leaves_empty_schema d out e d' :
  import_to_db d out = (Raise e, d') → d' = empty_schema.
Proof.
  rewrite import_to_db_unfold.
  destruct (_insert_lines out (connect empty_schema)) as [[u'|e'] conn] eqn:E;
    [done|].
  intros [= <- <-]. by apply keeps_file__insert_lines in E as [-> _].
Qed.

(** C2. The file a successful full import leaves holds exactly the rows
    of the parsed records, keyed 1, 2, ... in order, and this whatever the
    file held before; so a second run on the same CSV, started from the
    file the first one left, leaves that same file. *)
Theorem import_twice_same_tables csv d u d1 :
  main int csv d = (Ok u, d1) →
  main int csv d1 = (Ok tt, d1) ∧
  (∀ d2, main int csv d2 = (Ok tt, d1)) ∧
  (∃ out, load int csv = Ok out ∧ d1 = imported out) ∧
  (∀ d2 d3 out, import_to_db d2 out = import_to_db d3 out).
Proof.
  intros (out & Hload & Himport)%main_Ok. destruct u.
  assert (∀ d2, main int csv d2 = (Ok tt, d1)) as Hany.
  { intros d2. unfold main. rewrite Hload.
    by rewrite (import_to_db_unfold d2), <- (import_to_db_unfold d). }
  split_and!; [apply Hany|apply Hany| |].
  - exists out. split; [done|]. by eapply import_to_db_Ok.
  - intros d2 d3 out'. by rewrite (import_to_db_unfold d2), import_to_db_unfold.
Qed.

(** C7. After a successful import [constellation_line] has as many rows
    as there were records, and [constellation_line_star] as many as the
    records have star ids in all. *)
Theorem import_row_counts d out u d' :
  import_to_db d out = (Ok u, d') →
  ∃ t stars,
    line_table d' = Some t ∧ star_table d' = Some stars ∧
    length (constellation_line.rows t) = length out ∧
    length stars = sum_list (length ∘ star_ids <$> out).
Proof.
  intros ->%import_to_db_Ok. eexists _, _. split_and!; [done..| |]; simpl.
  - apply length_line_rows.
  - apply length_star_rows.
Qed.

(** C8. After a successful import the i-th row of [constellation_line]
    stands for the i-th record: its [star_count] is the number of star rows
    that reference its [line_id], these have the sequence indexes 1, 2, ...,
    [star_count] in order, and their [bsc_number]s in that order are the
    record's [star_ids]. *)
Theorem import_star_rows_match d out u d' :
  import_to_db d out = (Ok u, d') →
  ∃ t stars,
    line_table d' = Some t ∧ star_table d' = Some stars ∧
    ∀ i r, constellation_line.rows t !! i = Some r →
      ∃ l, out !! i = Some l ∧
        let mine := stars_of_line (constellation_line.line_id r) stars in
        constellation_line.star_count r = Z.of_nat (length mine) ∧
        constellation_line_star.sequence_index <$> mine =
          Z.of_nat <$> seq 1 (length mine) ∧
        constellation_line_star.bsc_number <$> mine = star_ids l.
Proof.
  intros ->%import_to_db_Ok. eexists _, _. split_and!; [done..|]; simpl.
  intros i r (l & Hl & ->)%line_rows_lookup. exists l. split; [done|]. simpl.
  rewrite (stars_of_line_star_rows _ _ _ _ Hl), length_star_rows_of.
  split_and!; [done| |].
  - apply sequence_index_star_rows_of.
  - apply bsc_number_star_rows_of.
Qed.

End ImporterTheorems.

(** ** Runs on concrete files *)

Example load_and_rows : load py_int (Some and_rows) = Ok and_lines.
Proof. vm_compute. reflexivity. Qed.

Example import_and_lines :
  import_to_db no_database and_lines = (Ok tt, imported and_lines).
Proof. vm_compute. reflexivity. Qed.

Example load_short_rows :
  load py_int (Some short_rows) =
  Raise (ValueError (count_mismatch "AND" 5 3)).
Proof. vm_compute. reflexivity. Qed.

Example load_missing_file : load py_int None = Raise FileNotFoundError.
Proof. reflexivity. Qed.

Lemma import_failure_leaves_empty_schema_witness :
  ∃ e d', import_to_db (imported and_lines) huge_lines = (Raise e, d') ∧
          d' = empty_schema.
Proof.
  exists OverflowError, empty_schema. split; [vm_compute; reflexivity|].
  apply (import_failure_leaves_empty_schema
           (imported and_lines) huge_lines OverflowError).
  vm_compute. reflexivity.
Defined.

(** C1 fails as stated: the file holds an earlier import, an insert of the
    next run raises, and the earlier rows are gone. *)
Lemma import_failure_drops_earlier_rows :
  ∃ e d',
    import_to_db (imported and_lines) huge_lines = (Raise e, d') ∧
    d' ≠ imported and_lines ∧
    line_table d' =
      Some {| constellation_line.rows := []; constellation_line.seq := 0 |} ∧
    star_table d' = Some [].
Proof.
  exists OverflowError, empty_schema.
  split_and!; [vm_compute; reflexivity|discriminate|done|done].
Qed.

Lemma import_twice_same_tables_witness :
  main py_int (Some and_rows) no_database = (Ok tt, imported and_lines) ∧
  main py_int (Some and_rows) (imported and_lines) =
    (Ok tt, imported and_lines).
Proof.
  assert (main py_int (Some and_rows) no_database =
          (Ok tt, imported and_lines)) as H by (vm_compute; reflexivity).
  split; [exact H|].
  exact (proj1 (import_twice_same_tables py_int _ _ _ _ H)).
Defined.

Lemma load_raises_on_count_mismatch_witness :
  mismatch_row py_int short_rows ∧
  raises (load_file py_int (yields short_rows None)).
Proof.
  assert (mismatch_row py_int short_rows) as H.
  { exists 0%nat, (mkrow [("abr", "AND"); ("nr", "5"); ("s01", "1");
                          ("s02", "2"); ("s03", "3")]).
    split_and!; [reflexivity|vm_compute; discriminate|].
    exists 5, [1; 2; 3].
    split_and!; [vm_compute; reflexivity|vm_compute; reflexivity|].
    simpl. lia. }
  split; [exact H|].
  exact (proj1 (load_raises_on_count_mismatch py_int short_rows) None H).
Defined.

(** C3 fails as stated: [load] raises on a file with no mismatched row. *)
Lemma load_raises_without_mismatch :
  load py_int (Some not_int_rows) = Raise (ValueError (invalid_literal "x")) ∧
  ¬ mismatch_row py_int not_int_rows.
Proof.
  split; [vm_compute; reflexivity|].
  intros (i & raw & Hi & _ & (total & ids & _ & Hids & _)).
  destruct i as [|i]; [|by destruct i].
  injection Hi as <-. vm_compute in Hids. discriminate.
Qed.

Lemma load_line_numbers_dense_witness :
  load py_int (Some and_rows) = Ok and_lines ∧
  line_number <$> records_of "AND" and_lines =
  Z.of_nat <$> seq 1 (length (records_of "AND" and_lines)).
Proof.
  assert (load py_int (Some and_rows) = Ok and_lines) as H
    by (vm_compute; reflexivity).
  split; [exact H|].
  exact (proj1 (load_line_numbers_dense py_int _ _ H) "AND").
Defined.

Lemma load_star_ids_length_witness :
  load py_int (Some and_rows) = Ok and_lines ∧
  (1 ≤ length [7] ≤ 31)%nat.
Proof.
  assert (load py_int (Some and_rows) = Ok and_lines) as H
    by (vm_compute; reflexivity).
  split; [exact H|].
  apply (load_star_ids_length py_int _ _
           {| constellation := "ORI"; line_number := 1; star_ids := [7] |} H).
  do 2 right. left.
Defined.

(** C5 fails as stated: a row with one star id yields a record of one. *)
Lemma load_one_star_record :
  ∃ l, load py_int (Some one_star_rows) = Ok [l] ∧
       ¬ (2 ≤ length (star_ids l) ≤ 31)%nat.
Proof.
  exists {| constellation := "AND"; line_number := 1; star_ids := [1] |}.
  split; [vm_compute; reflexivity|]. simpl. lia.
Qed.

Lemma load_blank_abbreviation_inherits_witness :
  load py_int (Some and_rows) = Ok and_lines ∧
  ∃ before produced after,
    load py_int (Some (take 2 and_rows)) = Ok before ∧
    and_lines = before ++ produced ++ after ∧
    (produced = [] ∨
     ∃ n ids, ids ≠ [] ∧
       produced = [{| constellation := "AND";
                      line_number := n; star_ids := ids |}]).
Proof.
  assert (load py_int (Some and_rows) = Ok and_lines) as H
    by (vm_compute; reflexivity).
  split; [exact H|].
  destruct (proj1 (load_blank_abbreviation_inherits py_int
              (take 2 and_rows)
              (mkrow [("abr", " "); ("s01", "-3"); ("s02", "4"); ("s31", "0")])
              (drop 3 and_rows) and_lines H
              ltac:(vm_compute; reflexivity)
              ltac:(vm_compute; discriminate)))
    as (before & produced & after & Hb & _ & Hout & Hp).
  exists before, produced, after. split_and!; [exact Hb|exact Hout|].
  destruct Hp as [->|(n & ids & Hne & _ & ->)]; [by left|right].
  exists n, ids. split; [exact Hne|reflexivity].
Defined.

Lemma import_row_counts_witness :
  import_to_db no_database and_lines = (Ok tt, imported and_lines) ∧
  ∃ t stars,
    line_table (imported and_lines) = Some t ∧
    star_table (imported and_lines) = Some stars ∧
    length (constellation_line.rows t) = 3%nat ∧
    length stars = 6%nat.
Proof.
  assert (import_to_db no_database and_lines = (Ok tt, imported and_lines))
    as H by (vm_compute; reflexivity).
  split; [exact H|].
  exact (import_row_counts _ _ _ _ H).
Defined.

Lemma import_star_rows_match_witness :
  import_to_db no_database and_lines = (Ok tt, imported and_lines) ∧
  ∃ t stars,
    line_table (imported and_lines) = Some t ∧
    star_table (imported and_lines) = Some stars ∧
    ∀ i r, constellation_line.rows t !! i = Some r →
      ∃ l, and_lines !! i = Some l ∧
        constellation_line_star.bsc_number
          <$> stars_of_line (constellation_line.line_id r) stars =
        star_ids l.
Proof.
  assert (import_to_db no_database and_lines = (Ok tt, imported and_lines))
    as H by (vm_compute; reflexivity).
  split; [exact H|].
  destruct (import_star_rows_match _ _ _ _ H) as (t & stars & Ht & Hs & Hrows).
  exists t, stars. split_and!; [exact Ht|exact Hs|].
  intros i r Hr. destruct (Hrows i r Hr) as (l & Hl & _ & _ & Hb).
  exists l. split; [exact Hl|exact Hb].
Defined.

Lemma load_missing_column_as_blank_witness :
  "nr" ∈ "nr" :: STAR_COLUMNS ∧ strip "  " = "" ∧
  load py_int (Some (delete "nr" <$> and_rows)) =
  load py_int (Some (<["nr" := Some "  "]> <$> and_rows)).
Proof.
  assert ("nr" ∈ "nr" :: STAR_COLUMNS) as Hcol by left.
  assert (strip "  " = "") as Hblank by reflexivity.
  split_and!; [exact Hcol|exact Hblank|].
  exact (proj1 (proj2
    (load_missing_column_as_blank py_int "nr" "  " and_rows Hcol Hblank))).
Defined.

(** C9 fails as stated: the file loads, and with the column [s02] missing
    from the header [load] fails. *)
Lemma load_fails_without_star_column :
  load_file py_int (yields and_rows None) = Ok and_lines ∧
  load_file py_int (yields (delete "s02" <$> and_rows) None) =
  Raise (ValueError (count_mismatch "AND" 2 1)).
Proof. split; vm_compute; reflexivity. Qed.

(** C10 fails as stated: the cell parses as an integer and [load] accepts
    it, but it does not fit SQLite's INTEGER; the insert raises and no star
    row is persisted. *)
Lemma huge_star_id_not_persisted :
  py_int (strip "9223372036854775808") = Some 9223372036854775808 ∧
  load py_int (Some huge_rows) = Ok huge_lines ∧
  ∃ d', main py_int (Some huge_rows) no_database = (Raise OverflowError, d') ∧
        star_table d' = Some [].
Proof.
  split_and!; [vm_compute; reflexivity..|].
  exists empty_schema. split; [vm_compute; reflexivity|done].
Qed.

(** ** More about the parser *)

Section ParserExtras.

Variable int : string → option Z.

Lemma load_rows_skipped st skipped :
  current_constellation st = "" →
  Forall (λ raw, abbr_of raw = "") skipped →
  load_rows int st skipped = Ok st.
Proof.
  intros Hc. induction 1 as [|raw skipped Ha _ IH]; simpl; [done|].
  by rewrite load_row_skip.
Qed.

(** X1. The rows ahead of the first non-blank abbreviation are skipped
    unread: whatever their cells hold, [load] returns or raises what it
    does on the file without them. *)
Theorem load_skips_leading_rows skipped rows :
  Forall (λ raw, abbr_of raw = "") skipped →
  load int (Some (skipped ++ rows)) = load int (Some rows).
Proof.
  intros H. unfold load.
  by rewrite load_rows_app, (load_rows_skipped load_init skipped eq_refl H).
Qed.

Lemma _parse_int_get_Ok raw column v :
  _parse_int int (get raw column) = Ok v →
  cell_parses int raw column ∧ v = cell_value int raw column.
Proof.
  unfold cell_parses, cell_value, _parse_int.
  destruct (get raw column) as [cell|]; simpl.
  - destruct (decide (strip cell = "")) as [He|Hne]; simpl.
    + rewrite He. simpl. intros [= <-]. split; [|done].
      by intros ? [= <-] ?.
    + apply truthy_true in Hne as Ht. rewrite Ht. simpl.
      destruct (int (strip cell)) as [n|] eqn:E; [|done].
      intros [= <-]. split; [|done]. intros ? [= <-] _. rewrite E. eauto.
  - intros [= <-]. split; [|done]. by intros ? ?.
Qed.

Lemma _parse_int_get_parses raw column :
  cell_parses int raw column →
  _parse_int int (get raw column) = Ok (cell_value int raw column).
Proof.
  unfold cell_parses, cell_value, _parse_int.
  destruct (get raw column) as [cell|]; simpl; [|done].
  intros H. destruct (decide (strip cell = "")) as [He|Hne].
  { by rewrite He. }
  apply truthy_true in Hne as Ht. rewrite Ht. simpl.
  by destruct (H cell eq_refl Hne) as [n ->].
Qed.

Lemma omap_id_fmap {A B} (f : A → option B) (l : list A) :
  omap id (f <$> l) = omap f l.
Proof.
  induction l as [|x l IH]; [done|]. csimpl. simpl.
  destruct (f x); by rewrite IH.
Qed.

Lemma mapM_parse_cells raw columns cells :
  mapM (λ column, _parse_int int (get raw column)) columns = Ok cells ↔
  Forall (cell_parses int raw) columns ∧
  cells = cell_value int raw <$> columns.
Proof.
  split.
  - intros H%mapM_result_Forall2.
    induction H as [|column v columns cells Hv _ [IH1 IH2]]; [done|].
    apply _parse_int_get_Ok in Hv as [? ->]. split; [by constructor|].
    by rewrite IH2.
  - intros [H ->]. apply Forall2_mapM_result.
    induction H as [|column columns Hc _ IH]; [constructor|].
    csimpl. constructor; [by apply _parse_int_get_parses|done].
Qed.

(** X2. The star ids of a row are the values of its non-blank star cells
    in column order, [s01] first: the generator succeeds exactly when every
    star cell is missing, blank or an integer literal, and then keeps each
    present value, in place. *)
Theorem parse_star_ids_in_column_order raw ids :
  parse_star_ids int raw = Ok ids ↔
  Forall (cell_parses int raw) STAR_COLUMNS ∧
  ids = omap (cell_value int raw) STAR_COLUMNS.
Proof.
  unfold parse_star_ids. generalize STAR_COLUMNS. intros columns.
  rewrite bind_Ok. split.
  - intros (cells & [H ->]%mapM_parse_cells & [= <-]).
    split; [exact H|]. apply omap_id_fmap.
  - intros [H ->]. exists (cell_value int raw <$> columns). split.
    + apply mapM_parse_cells. split; [exact H|reflexivity].
    + unfold mret, result_ret. f_equal. apply omap_id_fmap.
Qed.

(** X3. [load] reads front to back: the records of a file that loads
    start with the records of any of its prefixes, and a prefix that raises
    makes the whole file raise the same error. *)
Theorem load_prefix rows1 rows2 :
  (∀ out, load int (Some (rows1 ++ rows2)) = Ok out →
     ∃ out1 out2, load int (Some rows1) = Ok out1 ∧ out = out1 ++ out2) ∧
  (∀ e, load int (Some rows1) = Raise e →
     load int (Some (rows1 ++ rows2)) = Raise e).
Proof.
  unfold load. rewrite load_rows_app. split.
  - intros out (st & (st1 & H1 & H2)%bind_Ok & [= <-])%bind_Ok.
    rewrite H1. simpl.
    destruct (load_rows_lines _ _ _ _ H2) as (added & ->). eauto.
  - intros e [H|(? & _ & ?)]%bind_Raise; [|done]. by rewrite H.
Qed.

Lemma load_line_Raise_mismatch st raw code total parsed :
  load_line int st raw = Raise (ValueError (count_mismatch code total parsed)) →
  code = current_constellation st ∧
  _parse_int int (get raw "nr") = Ok (Some total) ∧
  ∃ ids, parse_star_ids int raw = Ok ids ∧
         parsed = Z.of_nat (length ids) ∧ total ≠ parsed.
Proof.
  unfold load_line.
  destruct (_parse_int int (get raw "nr")) as [t|e1] eqn:Ht; simpl.
  2:{ intros [= ->]. by apply _parse_int_Raise in Ht as [? ?]. }
  destruct (parse_star_ids int raw) as [ids|e2] eqn:Hids; simpl.
  2:{ intros [= ->]. by apply parse_star_ids_Raise in Hids as [? ?]. }
  destruct t as [t|]; simpl.
  - destruct (Z.eqb_spec t (Z.of_nat (length ids))) as [->|Hne]; simpl.
    + destruct ids; [done|]. by destruct (_ !! _).
    + intros [= <- <- <-]. split_and!; [done..|]. by exists ids.
  - destruct ids; [done|]. by destruct (_ !! _).
Qed.

(** X4. The count-mismatch error names the row it stopped at truthfully:
    every row before it was read without an error, and the error carries the
    constellation code that row falls under, the count the row declares and
    the number of star ids parsed from it, which differ. *)
Theorem load_count_mismatch_report rows code total parsed :
  load int (Some rows) = Raise (ValueError (count_mismatch code total parsed)) →
  ∃ pre raw post ids,
    rows = pre ++ raw :: post ∧
    (∃ out, load int (Some pre) = Ok out) ∧
    code = last_code (pre ++ [raw]) ∧ code ≠ "" ∧
    _parse_int int (get raw "nr") = Ok (Some total) ∧
    parse_star_ids int raw = Ok ids ∧
    parsed = Z.of_nat (length ids) ∧ total ≠ parsed.
Proof.
  unfold load. intros [H|(? & _ & H)]%bind_Raise; [|done].
  apply load_rows_Raise in H as (pre & raw & post & st1 & -> & Hpre & Hraw).
  pose proof (load_rows_last_code _ _ _ Hpre) as Hcur.
  exists pre, raw, post. rewrite last_code_snoc, Hpre.
  destruct (decide (abbr_of raw = "")) as [Ha|Ha].
  - destruct (decide (current_constellation st1 = "")) as [Hc|Hc].
    + by rewrite load_row_skip in Hraw.
    + rewrite load_row_carry in Hraw by done.
      apply load_line_Raise_mismatch in Hraw
        as (-> & Hnr & ids & Hids & -> & Hne).
      exists ids. rewrite <- Hcur. split_and!; eauto.
  - rewrite load_row_new in Hraw by done.
    apply load_line_Raise_mismatch in Hraw
      as (-> & Hnr & ids & Hids & -> & Hne).
    exists ids. split_and!; eauto.
Qed.

(** X5. In a file that loads, a declared count is always right: every
    row at or after the first non-blank abbreviation that declares a count
    has exactly that many star ids. *)
Theorem load_declared_count_holds pre raw post out total :
  load int (Some (pre ++ raw :: post)) = Ok out →
  last_code (pre ++ [raw]) ≠ "" →
  _parse_int int (get raw "nr") = Ok (Some total) →
  ∃ ids, parse_star_ids int raw = Ok ids ∧ total = Z.of_nat (length ids).
Proof.
  intros (rows & st & [= <-] & Hst & ->)%load_Ok Hcode Hnr.
  rewrite load_rows_app in Hst.
  apply bind_Ok in Hst as (st1 & Hpre & Hst). simpl in Hst.
  apply bind_Ok in Hst as (st2 & Hraw & _).
  rewrite last_code_snoc, <- (load_rows_last_code _ _ _ Hpre) in Hcode.
  assert (∃ st0, load_line int st0 raw = Ok st2) as [st0 Hline].
  { destruct (decide (abbr_of raw = "")) as [Ha|Ha].
    - rewrite load_row_carry in Hraw by done. eauto.
    - rewrite load_row_new in Hraw by done. eauto. }
  apply load_line_Ok in Hline as (t & ids & Ht & Hids & Hchk & _).
  exists ids. split; [done|]. apply Hchk. congruence.
Qed.

Lemma load_rows_attributed rows st st' :
  load_rows int st rows = Ok st' →
  (λ l, (constellation l, star_ids l)) <$> lines st' =
  ((λ l, (constellation l, star_ids l)) <$> lines st) ++
  filter (λ p, p.2 ≠ []) (attributed int (current_constellation st) rows).
Proof.
  revert st. induction rows as [|raw rows IH]; intros st; simpl.
  - intros [= <-]. by rewrite app_nil_r.
  - intros (st1 & Hraw & Hrest)%bind_Ok.
    rewrite (IH _ Hrest), filter_app, app_assoc.
    rewrite <- (load_row_current _ _ _ _ Hraw). f_equal.
    destruct (load_row_step _ _ _ _ Hraw)
      as [(Hl & _ & Hwhy)|(ids & Hne & Hids & Hl & _ & _)].
    + rewrite Hl. rewrite <- (app_nil_r (_ <$> lines st)) at 1. f_equal.
      destruct (decide (current_constellation st1 = "")); [done|].
      rewrite filter_cons_False; [done|]. simpl. intros Hne. apply Hne.
      destruct Hwhy as [[Ha Hc]|Hids].
      * rewrite (load_row_current _ _ _ _ Hraw), decide_True in n by done.
        done.
      * unfold row_star_ids. by rewrite Hids.
    + rewrite Hl, fmap_app. f_equal. simpl.
      destruct (decide (current_constellation st1 = "")) as [Hc|Hc].
      * rewrite (load_row_current _ _ _ _ Hraw) in Hc.
        destruct (decide (abbr_of raw = "")) as [Ha|Ha]; [|done].
        rewrite load_row_skip in Hraw by done. injection Hraw as <-.
        apply (f_equal length) in Hl. rewrite length_app in Hl.
        simpl in Hl. lia.
      * unfold row_star_ids. rewrite Hids.
        by rewrite filter_cons_True.
Qed.

(** X7. [load] loses and reorders nothing: the codes and star ids of its
    records are, in file order, those of the rows from the first non-blank
    abbreviation on that have at least one star id, each under the last
    non-blank abbreviation read so far. *)
Theorem load_output_in_file_order rows out :
  load int (Some rows) = Ok out →
  (λ l, (constellation l, star_ids l)) <$> out =
  filter (λ p, p.2 ≠ []) (attributed int "" rows).
Proof.
  intros (? & st & [= <-] & Hst & ->)%load_Ok.
  by rewrite (load_rows_attributed _ _ _ Hst).
Qed.

End ParserExtras.

(** ** More about the import *)

(** X8. On a database in which nothing but the script's own two tables
    and their indexes bears one of its names (a new file among them), the
    schema script cannot fail: whatever rows, key counter and indexes it
    finds, with or without a transaction pending, it leaves both tables
    empty, the two indexes, and no transaction open; run again, it changes
    nothing. *)
Theorem create_schema_resets conn :
  ∃ conn',
    _create_schema conn = (Ok tt, conn') ∧
    file conn' = empty_schema ∧ transaction conn' = None ∧
    _create_schema conn' = (Ok tt, conn').
Proof.
  exists (connect empty_schema). by rewrite !_create_schema_spec.
Qed.

Lemma insert_constellation_line_fits code number count conn rowid conn' :
  insert_constellation_line code number count conn = (Ok rowid, conn') →
  fits_int64 number = true ∧ fits_int64 count = true.
Proof.
  unfold insert_constellation_line.
  intros (? & ? & _ & H)%db_bind_Ok.
  apply db_bind_Ok in H as (? & ? & _ & H).
  apply db_bind_Ok in H as (? & ? & (_ & _ & Hn)%bind_int_Ok & H).
  by apply db_bind_Ok in H as (? & ? & (_ & _ & Hc)%bind_int_Ok & _).
Qed.

Lemma insert_constellation_line_star_fits params conn u conn' :
  insert_constellation_line_star params conn = (Ok u, conn') →
  fits_int64 params.2 = true.
Proof.
  destruct params as [[line_id index] star_id]. simpl.
  intros (? & ? & _ & H)%db_bind_Ok.
  apply db_bind_Ok in H as (? & ? & _ & H).
  by apply db_bind_Ok in H as (? & ? & (_ & _ & Hv)%bind_int_Ok & _).
Qed.

Lemma for_each_insert_star_fits params conn u conn' :
  for_each insert_constellation_line_star params conn = (Ok u, conn') →
  Forall (λ p, fits_int64 p.2 = true) params.
Proof.
  revert conn. induction params as [|p params IH]; intros conn; simpl.
  - constructor.
  - intros (? & conn1 & Hp%insert_constellation_line_star_fits & H)%db_bind_Ok.
    constructor; [done|]. by eapply IH.
Qed.

Lemma _insert_lines_storable out conn u conn' :
  _insert_lines out conn = (Ok u, conn') → Forall storable out.
Proof.
  unfold _insert_lines. revert conn.
  induction out as [|l out IH]; intros conn; simpl; [constructor|].
  intros (? & conn2 & H & Hrest)%db_bind_Ok.
  constructor; [|by eapply IH].
  apply db_bind_Ok in H as (rowid & conn1 & Hline & Hstars).
  apply insert_constellation_line_fits in Hline as [Hn Hc].
  unfold executemany_constellation_line_star in Hstars.
  apply db_bind_Ok in Hstars as (? & ? & _ & Hstars).
  apply db_bind_Ok in Hstars as (? & ? & _ & Hstars%for_each_insert_star_fits).
  split_and!; [done| |apply fits_int64_spec in Hc; lia].
  apply Forall_forall. intros v (i & Hi)%list_elem_of_lookup.
  rewrite Forall_forall in Hstars.
  apply (Hstars (rowid, Z.of_nat i + 1, v)).
  apply list_elem_of_fmap. exists (Z.of_nat i, v). split; [done|].
  unfold enumerate. apply elem_of_lookup_imap. by exists i, v.
Qed.

Lemma import_to_db_Raise_file d out e d' :
  import_to_db d out = (Raise e, d') → d' = empty_schema.
Proof.
  rewrite import_to_db_unfold.
  destruct (_insert_lines out (connect empty_schema)) as [[u'|e'] conn] eqn:E;
    [done|].
  intros [= <- <-]. by apply keeps_file__insert_lines in E as [-> _].
Qed.

Lemma line_id_line_rows k out :
  constellation_line.line_id <$> line_rows (Z.of_nat k) out =
  Z.of_nat <$> seq k (length out).
Proof.
  revert k. induction out as [|l out IH]; intros k; simpl; [done|].
  csimpl. f_equal.
  replace (Z.of_nat k + 1) with (Z.of_nat (S k)) by lia. apply IH.
Qed.

Lemma constellation_line_rows first out :
  constellation_line.constellation <$> line_rows first out =
  constellation <$> out.
Proof.
  revert first. induction out as [|l out IH]; intros first; [done|].
  simpl. csimpl. f_equal. apply IH.
Qed.

Lemma line_number_line_rows first out :
  constellation_line.line_number <$> line_rows first out =
  line_number <$> out.
Proof.
  revert first. induction out as [|l out IH]; intros first; [done|].
  simpl. csimpl. f_equal. apply IH.
Qed.

(** X10. After a successful import the rows of [constellation_line] carry,
    in record order, the keys 1, 2, ..., n and the code and line number
    of each record, whatever keys the table had handed out before the
    run. *)
Theorem import_line_rows_columns d out u d' :
  import_to_db d out = (Ok u, d') →
  ∃ t, line_table d' = Some t ∧
    constellation_line.line_id <$> constellation_line.rows t =
      Z.of_nat <$> seq 1 (length out) ∧
    constellation_line.constellation <$> constellation_line.rows t =
      constellation <$> out ∧
    constellation_line.line_number <$> constellation_line.rows t =
      line_number <$> out.
Proof.
  intros ->%import_to_db_Ok. eexists. split; [done|]. simpl. split_and!.
  - apply (line_id_line_rows 1).
  - apply constellation_line_rows.
  - apply line_number_line_rows.
Qed.

Lemma NoDup_star_keys_of line_id l :
  NoDup (star_key <$> star_rows_of line_id l).
Proof.
  apply (NoDup_fmap_1 snd). rewrite <- list_fmap_compose.
  change (snd ∘ star_key) with constellation_line_star.sequence_index.
  rewrite sequence_index_star_rows_of.
  apply NoDup_fmap_2; [apply _|apply NoDup_seq].
Qed.

Lemma NoDup_star_keys first out : NoDup (star_key <$> star_rows first out).
Proof.
  revert first. induction out as [|l out IH]; intros first; simpl.
  - constructor.
  - rewrite fmap_app. apply NoDup_app. split_and!.
    + apply NoDup_star_keys_of.
    + intros key (s1 & -> & Hs1%line_id_star_rows_of)%list_elem_of_fmap
                 (s2 & Hkey & Hs2%line_id_star_rows)%list_elem_of_fmap.
      apply (f_equal fst) in Hkey. simpl in Hkey. lia.
    + apply IH.
Qed.

(** X11. The keys of a successful import are sound: no two rows of
    [constellation_line] share a [line_id], and no two rows of
    [constellation_line_star] share a [(line_id, sequence_index)]. *)
Theorem import_keys_unique d out u d' :
  import_to_db d out = (Ok u, d') →
  ∃ t stars,
    line_table d' = Some t ∧ star_table d' = Some stars ∧
    NoDup (constellation_line.line_id <$> constellation_line.rows t) ∧
    NoDup (star_key <$> stars).
Proof.
  intros ->%import_to_db_Ok. eexists _, _. split_and!; [done..| |]; simpl.
  - rewrite (line_id_line_rows 1).
    apply NoDup_fmap_2; [apply _|apply NoDup_seq].
  - apply NoDup_star_keys.
Qed.

Lemma star_rows_elem_inv first out s :
  s ∈ star_rows first out →
  ∃ i l, out !! i = Some l ∧ s ∈ star_rows_of (first + Z.of_nat i) l.
Proof.
  revert first. induction out as [|l out IH]; intros first; simpl.
  - by intros ?%elem_of_nil.
  - intros [Hs|(i & l' & Hl' & Hs)%IH]%elem_of_app.
    + exists 0%nat, l. by rewrite Z.add_0_r.
    + exists (S i), l'. split; [done|].
      by replace (first + Z.of_nat (S i)) with (first + 1 + Z.of_nat i) by lia.
Qed.

Lemma line_rows_lookup_2 first out i l :
  out !! i = Some l →
  line_rows first out !! i = Some (line_row_of (first + Z.of_nat i) l).
Proof.
  revert first i. induction out as [|l0 out IH]; intros first i; [done|].
  destruct i as [|i]; simpl.
  - intros [= <-]. by rewrite Z.add_0_r.
  - intros Hl. rewrite (IH (first + 1) i Hl). do 2 f_equal. lia.
Qed.

(** X12. Every star row of a successful import references a line row that
    is there, and its sequence index lies between 1 and that row's
    [star_count]; SQLite is not asked to enforce the foreign key, the
    inserts keep it. *)
Theorem import_stars_reference_lines d out u d' :
  import_to_db d out = (Ok u, d') →
  ∃ t stars,
    line_table d' = Some t ∧ star_table d' = Some stars ∧
    ∀ s, s ∈ stars →
      ∃ r, r ∈ constellation_line.rows t ∧
        constellation_line.line_id r = constellation_line_star.line_id s ∧
        1 ≤ constellation_line_star.sequence_index s
          ≤ constellation_line.star_count r.
Proof.
  intros ->%import_to_db_Ok. eexists _, _. split_and!; [done..|]; simpl.
  intros s (i & l & Hl & Hs)%star_rows_elem_inv.
  exists (line_row_of (1 + Z.of_nat i) l). split_and!.
  - eapply list_elem_of_lookup_2. by apply line_rows_lookup_2.
  - simpl. symmetry. by eapply line_id_star_rows_of.
  - unfold star_rows_of in Hs.
    apply elem_of_lookup_imap in Hs as (j & v & -> & Hj). simpl. lia.
  - unfold star_rows_of in Hs.
    apply elem_of_lookup_imap in Hs as (j & v & -> & Hj).
    apply lookup_lt_Some in Hj. simpl. lia.
Qed.

Section MainExtras.

Variable int : string → option Z.

(** X13. A CSV in which no row has an abbreviation, the header-only file
    among them, is a valid input with no records: [main] succeeds and
    leaves both tables empty, whatever they held. *)
Theorem main_without_codes_clears rows d :
  Forall (λ raw, abbr_of raw = "") rows →
  main int (Some rows) d = (Ok tt, empty_schema).
Proof.
  intros H. unfold main, load.
  rewrite (load_rows_skipped int load_init rows eq_refl H). simpl.
  by rewrite import_to_db_unfold.
Qed.

(** X14. [main] parses before it opens the database: when the CSV is
    missing, or has a mismatched row at or after its first non-blank
    abbreviation, [main] raises and the file is as it was, earlier import
    included. *)
Theorem main_parse_failure_keeps_file csv d :
  csv = None ∨ (∃ rows, csv = Some rows ∧ mismatch_row int rows) →
  ∃ e, main int csv d = (Raise e, d).
Proof.
  intros [->|(rows & -> & [e He]%mismatch_row_raises)].
  - by exists FileNotFoundError.
  - exists e. unfold main. by rewrite He.
Qed.

(** X15. The line [main] prints tells the truth about the file: when one
    is printed the import has succeeded and the count in it is the number
    of rows now in [constellation_line]; when [main] raises, nothing is
    printed. *)
Theorem main_print_reports_row_count csv d :
  (∀ message d', main_print int csv d = (Ok message, d') →
     main int csv d = (Ok tt, d') ∧
     ∃ t, line_table d' = Some t ∧
          message = imported_message (length (constellation_line.rows t))) ∧
  (∀ e d', main int csv d = (Raise e, d') →
     main_print int csv d = (Raise e, d')).
Proof.
  unfold main_print, main. destruct (load int csv) as [out|e].
  2:{ split; [discriminate|by intros ? ? [= <- <-]]. }
  destruct (import_to_db d out) as [[[]|e] d1] eqn:E.
  2:{ split; [discriminate|by intros ? ? [= <- <-]]. }
  split; [|discriminate]. intros message d' [= <- <-]. split; [done|].
  apply import_to_db_Ok in E as ->. eexists. split; [done|]. simpl.
  by rewrite length_line_rows.
Qed.

End MainExtras.

(** ** More about errors and cells *)

Section CellExtras.

Variable int : string → option Z.

Lemma lstrip_blank_empty s : strip s = "" → lstrip s = "".
Proof.
  unfold strip. destruct (lstrip s) as [|c t] eqn:E; [done|].
  assert (isspace c = false) as Hc.
  { clear -E. induction s as [|c' s IH]; [done|]. simpl in E.
    destruct (isspace c') eqn:E'; [by apply IH|]. by injection E as <- _. }
  simpl. rewrite Hc. by destruct (rstrip t).
Qed.

Lemma rstrip_blank_empty s : lstrip s = "" → rstrip s = "".
Proof.
  induction s as [|c s IH]; [done|]. simpl.
  destruct (isspace c); [|done]. by intros ->%IH.
Qed.

Lemma lstrip_app_blank before s : lstrip before = "" → lstrip (before +:+ s) = lstrip s.
Proof.
  induction before as [|c before IH]; [done|]. simpl.
  by destruct (isspace c).
Qed.

Lemma rstrip_app_blank s after : rstrip after = "" → rstrip (s +:+ after) = rstrip s.
Proof.
  intros H. induction s as [|c s IH]; [done|]. simpl. by rewrite IH.
Qed.

Lemma strip_app_blank s after : lstrip after = "" → strip (s +:+ after) = strip s.
Proof.
  intros H. unfold strip. induction s as [|c s IH]; simpl.
  - change ("" +:+ after) with after. by rewrite H.
  - destruct (isspace c); [done|].
    apply (rstrip_app_blank (String c s)). by apply rstrip_blank_empty.
Qed.

(** X17. Whitespace around a cell does not count: a cell padded on either
    side with characters [str.strip] removes parses, or fails to parse, as
    the cell itself. *)
Theorem _parse_int_ignores_padding before cell after :
  strip before = "" → strip after = "" →
  _parse_int int (Some (before +:+ cell +:+ after)) =
  _parse_int int (Some cell).
Proof.
  intros Hb%lstrip_blank_empty Ha%lstrip_blank_empty.
  unfold _parse_int.
  assert (strip (before +:+ cell +:+ after) = strip cell) as ->; [|done].
  unfold strip at 1. rewrite lstrip_app_blank by done.
  by apply strip_app_blank.
Qed.

End CellExtras.

Lemma bind_int_Raise n conn e conn' :
  bind_int n conn = (Raise e, conn') → e = OverflowError.
Proof.
  unfold bind_int. destruct (fits_int64 n); [done|]. by intros [= <-].
Qed.

Lemma insert_constellation_line_Raise code number count conn t e conn' :
  line_table (view conn) = Some t →
  fits_int64 (Z.max (constellation_line.seq t)
                    (max_rowid (constellation_line.rows t)) + 1) = true →
  insert_constellation_line code number count conn = (Raise e, conn') →
  e = OverflowError.
Proof.
  intros Ht Hid.
  destruct (fits_int64 number) eqn:Hn; [destruct (fits_int64 count) eqn:Hc|].
  - destruct (insert_constellation_line_succeeds code number count conn t)
      as (conn1 & ->); done.
  - unfold insert_constellation_line.
    rewrite (db_bind_eq _ _ _ tt conn)
      by (apply prepare_exists; simpl; by rewrite Ht).
    destruct (begin_implicit_total conn) as (conn1 & Hb & _).
    rewrite (db_bind_eq _ _ _ _ _ Hb).
    rewrite (db_bind_eq _ _ _ _ _ (bind_int_fits _ _ Hn)).
    intros [H|(? & ? & H & _)]%db_bind_Raise.
    + by eapply bind_int_Raise.
    + apply bind_int_Ok in H as (_ & _ & H). congruence.
  - unfold insert_constellation_line.
    rewrite (db_bind_eq _ _ _ tt conn)
      by (apply prepare_exists; simpl; by rewrite Ht).
    destruct (begin_implicit_total conn) as (conn1 & Hb & _).
    rewrite (db_bind_eq _ _ _ _ _ Hb).
    intros [H|(? & ? & H & _)]%db_bind_Raise.
    + by eapply bind_int_Raise.
    + apply bind_int_Ok in H as (_ & _ & H). congruence.
Qed.

Lemma insert_constellation_line_star_Raise line_id index star_id conn stars
    e conn' :
  star_table (view conn) = Some stars →
  (∀ s, s ∈ stars → constellation_line_star.line_id s = line_id →
        constellation_line_star.sequence_index s < index) →
  insert_constellation_line_star (line_id, index, star_id) conn =
    (Raise e, conn') →
  e = OverflowError.
Proof.
  intros Hs Hfresh H.
  destruct (fits_int64 line_id) eqn:H1; [destruct (fits_int64 index) eqn:H2;
    [destruct (fits_int64 star_id) eqn:H3|]|].
  - destruct (insert_constellation_line_star_succeeds
                line_id index star_id conn stars) as (conn1 & Hok); try done.
    congruence.
  - unfold insert_constellation_line_star in H.
    rewrite (db_bind_eq _ _ _ _ _ (bind_int_fits _ _ H1)) in H.
    rewrite (db_bind_eq _ _ _ _ _ (bind_int_fits _ _ H2)) in H.
    apply db_bind_Raise in H as [H|(? & ? & H & _)].
    + by eapply bind_int_Raise.
    + apply bind_int_Ok in H as (_ & _ & H). congruence.
  - unfold insert_constellation_line_star in H.
    rewrite (db_bind_eq _ _ _ _ _ (bind_int_fits _ _ H1)) in H.
    apply db_bind_Raise in H as [H|(? & ? & H & _)].
    + by eapply bind_int_Raise.
    + apply bind_int_Ok in H as (_ & _ & H). congruence.
  - unfold insert_constellation_line_star in H.
    apply db_bind_Raise in H as [H|(? & ? & H & _)].
    + by eapply bind_int_Raise.
    + apply bind_int_Ok in H as (_ & _ & H). congruence.
Qed.

Lemma for_each_insert_star_Raise line_id ids :
  ∀ first conn stars e conn',
    star_table (view conn) = Some stars →
    (∀ s, s ∈ stars → constellation_line_star.line_id s = line_id →
          constellation_line_star.sequence_index s ≤ Z.of_nat first) →
    for_each insert_constellation_line_star
      (imap (λ index star_id,
               (line_id, Z.of_nat (first + index) + 1, star_id)) ids) conn =
      (Raise e, conn') →
    e = OverflowError.
Proof.
  induction ids as [|v ids IH]; intros first conn stars e conn' Hs Hfresh;
    simpl; [done|].
  intros [H|(? & conn1 & H1 & H)]%db_bind_Raise.
  - eapply insert_constellation_line_star_Raise; [done| |done].
    intros s Hin Hid. specialize (Hfresh s Hin Hid). lia.
  - apply (insert_constellation_line_star_Ok
             (line_id, Z.of_nat (first + 0) + 1, v)) in H1
      as (stars' & Hs' & Hv1).
    rewrite Hs in Hs'. injection Hs' as <-.
    apply (IH (S first) conn1 (stars ++ [star_row_of
             (line_id, Z.of_nat (first + 0) + 1, v)]) e conn').
    + by rewrite Hv1.
    + intros s [Hin| ->%list_elem_of_singleton]%elem_of_app Hid.
      * specialize (Hfresh s Hin Hid). lia.
      * simpl. lia.
    + rewrite <- H. f_equal.
      apply imap_ext. intros i y _. simpl. do 3 f_equal. lia.
Qed.

Lemma executemany_Raise line_id ids conn stars e conn' :
  star_table (view conn) = Some stars →
  (∀ s, s ∈ stars → constellation_line_star.line_id s ≠ line_id) →
  executemany_constellation_line_star
    ((λ '(index, star_id), (line_id, index + 1, star_id))
       <$> enumerate ids) conn = (Raise e, conn') →
  e = OverflowError.
Proof.
  intros Hs Hfresh. unfold executemany_constellation_line_star.
  rewrite (db_bind_eq _ _ _ tt conn)
    by (apply prepare_exists; simpl; by rewrite Hs).
  destruct (begin_implicit_total conn) as (conn1 & Hb & Hv).
  rewrite (db_bind_eq _ _ _ _ _ Hb). intros H.
  apply (for_each_insert_star_Raise line_id ids 0%nat conn1 stars e conn').
  - by rewrite Hv.
  - intros s Hin Hid. by destruct (Hfresh s Hin).
  - rewrite <- H. f_equal.
    unfold enumerate. rewrite fmap_imap. by apply imap_ext.
Qed.

Lemma _insert_lines_Raise out :
  ∀ conn rows k stars idx e conn',
    view conn =
      {| line_table := Some {| constellation_line.rows := rows;
                               constellation_line.seq := k |};
         star_table := Some stars; indexes := idx |} →
    max_rowid rows ≤ k → 0 ≤ k →
    k + Z.of_nat (length out) < 2 ^ 63 →
    (∀ s, s ∈ stars → constellation_line_star.line_id s ≤ k) →
    _insert_lines out conn = (Raise e, conn') →
    e = OverflowError.
Proof.
  unfold _insert_lines.
  induction out as [|l out IH];
    intros conn rows k stars idx e conn' Hview Hmax Hk Hbound Hstars; simpl;
    [done|].
  simpl in Hbound.
  intros [[H|(rowid & conn1 & H1 & H)]%db_bind_Raise
         |(? & conn2 & (rowid & conn1 & H1 & H2)%db_bind_Ok & H)]%db_bind_Raise.
  - eapply (insert_constellation_line_Raise _ _ _ conn); [|  |done].
    + by rewrite Hview.
    + simpl. rewrite Z.max_l by done. apply fits_int64_spec. lia.
  - apply insert_constellation_line_Ok in H1 as (t & Ht & -> & Hv1).
    rewrite Hview in Ht, Hv1. simpl in Ht, Hv1. injection Ht as <-.
    simpl in *. rewrite Z.max_l in * by done.
    eapply (executemany_Raise _ _ conn1 stars); [by rewrite Hv1| |done].
    intros s Hin. specialize (Hstars s Hin). lia.
  - apply insert_constellation_line_Ok in H1 as (t & Ht & -> & Hv1).
    rewrite Hview in Ht, Hv1. simpl in Ht, Hv1. injection Ht as <-.
    simpl in *. rewrite Z.max_l in * by done.
    apply executemany_Ok in H2 as (stars' & Hs' & Hv2).
    rewrite Hv1 in Hs', Hv2. simpl in Hs', Hv2. injection Hs' as <-.
    rewrite star_rows_of_params in Hv2.
    apply (IH conn2 _ (k + 1) _ idx e conn' Hv2); [| | | |done].
    + apply max_rowid_snoc_le; simpl; lia.
    + lia.
    + lia.
    + intros s [Hin| ->%line_id_star_rows_of]%elem_of_app.
      * specialize (Hstars s Hin). lia.
      * lia.
Qed.

(** ** Errors of the file, values of the cells *)

Lemma import_to_db_Ok_storable d out u d' :
  import_to_db d out = (Ok u, d') → Forall storable out.
Proof.
  rewrite import_to_db_unfold.
  destruct (_insert_lines out (connect empty_schema)) as [[u'|e] conn] eqn:E;
    [|done].
  intros _. by eapply _insert_lines_storable.
Qed.

(** X9. An import that returns has stored values SQLite can hold: every
    line number and every star id of the records fits a signed 64-bit
    integer.  So a record with a value out of that range makes the import
    raise, and the two tables are left empty. *)
Theorem import_needs_storable d out :
  (∀ u d', import_to_db d out = (Ok u, d') → Forall storable out) ∧
  (¬ Forall storable out → ∃ e, import_to_db d out = (Raise e, empty_schema)).
Proof.
  split; [apply import_to_db_Ok_storable|].
  intros Hnot. destruct (import_to_db d out) as [[u|e] d'] eqn:E.
  - destruct Hnot. by eapply import_to_db_Ok_storable.
  - exists e. by pose proof (import_to_db_Raise_file _ _ _ _ E) as ->.
Qed.

(** X16. The inserts never trip over their own keys: an import of fewer
    than 2^63 records does not raise [IntegrityError], since each line gets
    a key above every key in the table and its stars the indexes 1, 2, ...
    under that key. *)
Theorem import_never_integrity_error d out d' :
  Z.of_nat (length out) < 2 ^ 63 →
  import_to_db d out ≠ (Raise IntegrityError, d').
Proof.
  intros Hlen H. rewrite import_to_db_unfold in H.
  destruct (_insert_lines out (connect empty_schema)) as [[u|e'] conn] eqn:E;
    [done|].
  injection H as -> _.
  by pose proof (_insert_lines_Raise out (connect empty_schema)
       [] 0 [] (indexes empty_schema) _ conn eq_refl
       ltac:(done) ltac:(done) ltac:(lia)
       ltac:(by intros s ?%elem_of_nil) E).
Qed.

Lemma NoDup_fmap_elem_inj {A B} (f : A → B) (l : list A) x y :
  NoDup (f <$> l) → x ∈ l → y ∈ l → f x = f y → x = y.
Proof.
  induction l as [|z l IH]; csimpl.
  - by intros _ ?%elem_of_nil.
  - intros [Hz Hl]%NoDup_cons [->|Hx]%elem_of_cons [->|Hy]%elem_of_cons Hf.
    + done.
    + destruct Hz. rewrite Hf. apply list_elem_of_fmap. eauto.
    + destruct Hz. rewrite <- Hf. apply list_elem_of_fmap. eauto.
    + by apply IH.
Qed.

Lemma star_rows_app first out1 out2 :
  star_rows first (out1 ++ out2) =
  star_rows first out1 ++ star_rows (first + Z.of_nat (length out1)) out2.
Proof.
  revert first. induction out1 as [|l out1 IH]; intros first; simpl.
  - by rewrite Z.add_0_r.
  - rewrite IH, <- app_assoc. do 3 f_equal. lia.
Qed.

Lemma omap_lookup_middle {A B} (f : A → option B) (l : list A) j x v :
  l !! j = Some x → f x = Some v →
  omap f l !! length (omap f (take j l)) = Some v.
Proof.
  intros Hj Hx.
  assert (omap f l = omap f (take j l) ++ v :: omap f (drop (S j) l)) as ->.
  { rewrite <- (take_drop_middle l j x Hj) at 1.
    rewrite omap_app. csimpl. by rewrite Hx. }
  by rewrite list_lookup_middle.
Qed.

Section CellValues.

Variable int : string → option Z.


Lemma parse_star_ids_cells raw ids :
  parse_star_ids int raw = Ok ids →
  ids = omap (cell_value int raw) STAR_COLUMNS.
Proof.
  unfold parse_star_ids. generalize STAR_COLUMNS. intros columns.
  intros (cells & [_ ->]%mapM_parse_cells & [= <-])%bind_Ok.
  apply omap_id_fmap.
Qed.

Lemma cell_value_Some raw column cell v :
  get raw column = Some cell → strip cell ≠ "" → int (strip cell) = Some v →
  cell_value int raw column = Some v.
Proof.
  intros Hcell Hne Hv. unfold cell_value. rewrite Hcell. simpl.
  by rewrite decide_False.
Qed.

(** The record a row under a code yields, in a file that loads. *)
Lemma load_record_of_row pre raw post out j column cell v :
  STAR_COLUMNS !! j = Some column →
  get raw column = Some cell → strip cell ≠ "" → int (strip cell) = Some v →
  last_code (pre ++ [raw]) ≠ "" →
  load int (Some (pre ++ raw :: post)) = Ok out →
  ∃ before l after,
    load int (Some pre) = Ok before ∧
    out = before ++ l :: after ∧
    constellation l = last_code (pre ++ [raw]) ∧
    star_ids l = omap (cell_value int raw) STAR_COLUMNS ∧
    star_ids l !! star_position int raw j = Some v.
Proof.
  intros Hj Hcell Hne Hint Hcode (rows & st & [= <-] & Hst & ->)%load_Ok.
  rewrite load_rows_app in Hst.
  apply bind_Ok in Hst as (st1 & Hpre & Hst). simpl in Hst.
  apply bind_Ok in Hst as (st2 & Hraw & Hpost).
  pose proof (cell_value_Some _ _ _ _ Hcell Hne Hint) as Hvalue.
  pose proof (omap_lookup_middle _ _ _ _ _ Hj Hvalue) as Hlookup.
  pose proof (load_rows_last_code _ _ _ Hpre) as Hcur1.
  pose proof (load_row_current _ _ _ _ Hraw) as Hcur2.
  rewrite Hcur1, <- last_code_snoc in Hcur2.
  destruct (load_rows_lines _ _ _ _ Hpost) as (added & ->).
  destruct (load_row_step _ _ _ _ Hraw)
    as [(_ & _ & [[Ha Hc]|Hids])|(ids & _ & Hids & -> & _)].
  - rewrite last_code_snoc, decide_True in Hcode by done. congruence.
  - apply parse_star_ids_cells in Hids. rewrite <- Hids in Hlookup.
    by rewrite lookup_nil in Hlookup.
  - apply parse_star_ids_cells in Hids. subst ids.
    eexists (lines st1), _, added. split_and!.
    + apply load_Ok. eauto.
    + by rewrite <- app_assoc.
    + done.
    + done.
    + exact Hlookup.
Qed.

(** C10, as the code has it. A star cell whose stripped text [int]
    accepts is taken as it parses, whatever its sign or size: [load] returns
    whenever the count and star cells parse and no declared count is off,
    and the value stands unchanged at its place in the star ids of its
    row's record.  Whenever the import then succeeds, the star row under
    that record's key and that place carries the value as its [bsc_number],
    and on a new database file it succeeds when every star id fits a signed
    64-bit integer.  A value outside that range is accepted by [load] all the
    same, but the import then raises and no row is persisted. *)
Theorem star_id_accepted_and_persisted pre raw post j column cell v :
  STAR_COLUMNS !! j = Some column →
  get raw column = Some cell →
  strip cell ≠ "" →
  int (strip cell) = Some v →
  last_code (pre ++ [raw]) ≠ "" →
  _parse_int int (get raw column) = Ok (Some v) ∧
  (Forall (fields_parse int) (pre ++ raw :: post) →
   ¬ mismatch_row int (pre ++ raw :: post) →
   ∃ out, load_file int (yields (pre ++ raw :: post) None) = Ok out) ∧
  (∀ out, load_file int (yields (pre ++ raw :: post) None) = Ok out →
     ∃ before l after,
       load int (Some pre) = Ok before ∧
       out = before ++ l :: after ∧
       constellation l = last_code (pre ++ [raw]) ∧
       star_ids l = omap (cell_value int raw) STAR_COLUMNS ∧
       star_ids l !! star_position int raw j = Some v) ∧
  (∀ d u d', main int (Some (pre ++ raw :: post)) d = (Ok u, d') →
     ∃ before stars,
       load int (Some pre) = Ok before ∧
       star_table d' = Some stars ∧
       ∀ s,
         s ∈ stars ∧
         star_key s = (Z.of_nat (length before) + 1,
                       Z.of_nat (star_position int raw j) + 1) ↔
         s = {| constellation_line_star.line_id :=
                  Z.of_nat (length before) + 1;
                constellation_line_star.sequence_index :=
                  Z.of_nat (star_position int raw j) + 1;
                constellation_line_star.bsc_number := v |}) ∧
  (∀ out, load int (Some (pre ++ raw :: post)) = Ok out →
     Z.of_nat (length out) < 2 ^ 63 →
     (∀ l w, l ∈ out → w ∈ star_ids l → fits_int64 w = true) →
     main int (Some (pre ++ raw :: post)) no_database =
       (Ok tt, imported out)) ∧
  (fits_int64 v = false →
   ∀ d out, load int (Some (pre ++ raw :: post)) = Ok out →
     ∃ e, main int (Some (pre ++ raw :: post)) d = (Raise e, empty_schema)).
Proof.
  intros Hj Hcell Hne Hint Hcode.
  pose proof (load_record_of_row pre raw post) as Hrecord.
  split_and!.
  - rewrite Hcell. by apply _parse_int_Some.
  - intros Hparse Hnone. rewrite load_file_yields_None. by apply load_returns.
  - intros out Hout. by eapply Hrecord.
  - intros d u d' (out & Hout & ->%import_to_db_Ok)%main_Ok.
    destruct (Hrecord out j column cell v)
      as (before & l & after & Hbefore & -> & _ & _ & Hv); [done..|].
    exists before, (star_rows 1 (before ++ l :: after)).
    split_and!; [done..|].
    assert ({| constellation_line_star.line_id :=
                 Z.of_nat (length before) + 1;
               constellation_line_star.sequence_index :=
                 Z.of_nat (star_position int raw j) + 1;
               constellation_line_star.bsc_number := v |}
            ∈ star_rows 1 (before ++ l :: after)) as Hin.
    { rewrite star_rows_app. apply elem_of_app. right. simpl.
      apply elem_of_app. left. unfold star_rows_of.
      apply elem_of_lookup_imap. eexists _, v. split; [|exact Hv].
      f_equal. lia. }
    intros s. split.
    + intros [Hs Hkey].
      by apply (NoDup_fmap_elem_inj star_key _ _ _
                  (NoDup_star_keys 1 (before ++ l :: after)) Hs Hin).
    + by intros ->.
  - intros out Hout Hlen Hfits. unfold main. rewrite Hout.
    apply import_to_db_succeeds; [|done].
    apply Forall_forall. intros l Hl. split_and!.
    + apply fits_int64_spec.
      pose proof (load_line_number_bound _ _ _ _ Hout Hl). lia.
    + apply Forall_forall. intros w Hw. by eapply Hfits.
    + destruct (load_inv_output _ _ _ Hout) as (st & -> & Hinv).
      pose proof (inv_stars _ Hinv l Hl). lia.
  - intros Hbig d out Hout. unfold main. rewrite Hout.
    destruct (import_to_db d out) as [[u|e] d'] eqn:E.
    + apply import_to_db_Ok_storable in E.
      destruct (Hrecord out j column cell v)
        as (before & l & after & _ & -> & _ & _ & Hv); [done..|].
      rewrite Forall_forall in E.
      destruct (E l) as (_ & Hids & _).
      { apply elem_of_app. right. left. }
      rewrite Forall_forall in Hids.
      rewrite (Hids v) in Hbig; [done|].
      by eapply list_elem_of_lookup_2.
    + exists e. by pose proof (import_to_db_Raise_file _ _ _ _ E) as ->.
Qed.

End CellValues.

(** ** More runs on concrete files *)

Lemma stray_rows_blank : Forall (λ raw, abbr_of raw = "") stray_rows.
Proof. repeat (constructor; [vm_compute; reflexivity|]). constructor. Defined.

Lemma short_rows_mismatch : mismatch_row py_int short_rows.
Proof.
  exists 0%nat, (mkrow [("abr", "AND"); ("nr", "5"); ("s01", "1");
                        ("s02", "2"); ("s03", "3")]).
  split_and!; [reflexivity|vm_compute; discriminate|].
  exists 5, [1; 2; 3].
  split_and!; [vm_compute; reflexivity|vm_compute; reflexivity|].
  simpl. lia.
Defined.

Lemma and_lines_storable : Forall storable and_lines.
Proof.
  repeat (constructor;
    [split_and!; [reflexivity|repeat constructor|simpl; lia]|]).
  constructor.
Defined.

Lemma load_skips_leading_rows_witness :
  Forall (λ raw, abbr_of raw = "") stray_rows ∧
  load py_int (Some (stray_rows ++ and_rows)) = load py_int (Some and_rows).
Proof.
  split; [exact stray_rows_blank|].
  exact (load_skips_leading_rows py_int stray_rows and_rows stray_rows_blank).
Defined.

Lemma parse_star_ids_in_column_order_witness :
  parse_star_ids py_int
    (mkrow [("abr", " "); ("s01", "-3"); ("s02", "4"); ("s31", "0")]) =
    Ok [-3; 4; 0] ∧
  [-3; 4; 0] =
    omap (cell_value py_int
            (mkrow [("abr", " "); ("s01", "-3"); ("s02", "4"); ("s31", "0")]))
         STAR_COLUMNS.
Proof.
  assert (parse_star_ids py_int
    (mkrow [("abr", " "); ("s01", "-3"); ("s02", "4"); ("s31", "0")]) =
    Ok [-3; 4; 0]) as H by (vm_compute; reflexivity).
  split; [exact H|].
  exact (proj2 (proj1 (parse_star_ids_in_column_order py_int _ _) H)).
Defined.

Lemma load_prefix_witness :
  load py_int (Some (take 1 and_rows ++ drop 1 and_rows)) = Ok and_lines ∧
  ∃ out1 out2,
    load py_int (Some (take 1 and_rows)) = Ok out1 ∧ and_lines = out1 ++ out2.
Proof.
  assert (load py_int (Some (take 1 and_rows ++ drop 1 and_rows)) =
          Ok and_lines) as H by (vm_compute; reflexivity).
  split; [exact H|].
  exact (proj1 (load_prefix py_int (take 1 and_rows) (drop 1 and_rows)) _ H).
Defined.

Lemma load_count_mismatch_report_witness :
  load py_int (Some short_rows) =
    Raise (ValueError (count_mismatch "AND" 5 3)) ∧
  ∃ pre raw post ids,
    short_rows = pre ++ raw :: post ∧
    "AND" = last_code (pre ++ [raw]) ∧
    parse_star_ids py_int raw = Ok ids ∧ 3 = Z.of_nat (length ids).
Proof.
  assert (load py_int (Some short_rows) =
          Raise (ValueError (count_mismatch "AND" 5 3))) as H
    by (vm_compute; reflexivity).
  split; [exact H|].
  destruct (load_count_mismatch_report py_int _ _ _ _ H)
    as (pre & raw & post & ids & Hrows & _ & Hcode & _ & _ & Hids & Hn & _).
  exists pre, raw, post, ids. split_and!; assumption.
Defined.

Lemma load_declared_count_holds_witness :
  load py_int (Some ([] ++ mkrow [("abr", "AND"); ("nr", "2"); ("s01", "1");
                                   ("s02", " 2 ")] :: drop 1 and_rows)) =
    Ok and_lines ∧
  ∃ ids,
    parse_star_ids py_int
      (mkrow [("abr", "AND"); ("nr", "2"); ("s01", "1"); ("s02", " 2 ")]) =
      Ok ids ∧
    2 = Z.of_nat (length ids).
Proof.
  assert (load py_int (Some ([] ++ mkrow [("abr", "AND"); ("nr", "2");
            ("s01", "1"); ("s02", " 2 ")] :: drop 1 and_rows)) =
          Ok and_lines) as H by (vm_compute; reflexivity).
  split; [exact H|].
  apply (load_declared_count_holds py_int _ _ _ _ 2 H).
  - vm_compute. discriminate.
  - vm_compute. reflexivity.
Defined.

Lemma load_output_in_file_order_witness :
  load py_int (Some and_rows) = Ok and_lines ∧
  (λ l, (constellation l, star_ids l)) <$> and_lines =
  filter (λ p, p.2 ≠ []) (attributed py_int "" and_rows).
Proof.
  assert (load py_int (Some and_rows) = Ok and_lines) as H
    by (vm_compute; reflexivity).
  split; [exact H|].
  exact (load_output_in_file_order py_int _ _ H).
Defined.

Lemma import_line_rows_columns_witness :
  import_to_db no_database and_lines = (Ok tt, imported and_lines) ∧
  ∃ t, line_table (imported and_lines) = Some t ∧
    constellation_line.line_id <$> constellation_line.rows t = [1; 2; 3].
Proof.
  assert (import_to_db no_database and_lines = (Ok tt, imported and_lines))
    as H by (vm_compute; reflexivity).
  split; [exact H|].
  destruct (import_line_rows_columns _ _ _ _ H) as (t & Ht & Hid & _).
  exists t. split; [exact Ht|exact Hid].
Defined.

Lemma import_keys_unique_witness :
  import_to_db no_database and_lines = (Ok tt, imported and_lines) ∧
  ∃ t stars,
    line_table (imported and_lines) = Some t ∧
    star_table (imported and_lines) = Some stars ∧
    NoDup (constellation_line.line_id <$> constellation_line.rows t) ∧
    NoDup (star_key <$> stars).
Proof.
  assert (import_to_db no_database and_lines = (Ok tt, imported and_lines))
    as H by (vm_compute; reflexivity).
  split; [exact H|].
  exact (import_keys_unique _ _ _ _ H).
Defined.

Lemma import_stars_reference_lines_witness :
  import_to_db no_database and_lines = (Ok tt, imported and_lines) ∧
  ∃ t stars,
    line_table (imported and_lines) = Some t ∧
    star_table (imported and_lines) = Some stars ∧
    ∀ s, s ∈ stars →
      ∃ r, r ∈ constellation_line.rows t ∧
        constellation_line.line_id r = constellation_line_star.line_id s.
Proof.
  assert (import_to_db no_database and_lines = (Ok tt, imported and_lines))
    as H by (vm_compute; reflexivity).
  split; [exact H|].
  destruct (import_stars_reference_lines _ _ _ _ H)
    as (t & stars & Ht & Hs & Hall).
  exists t, stars. split_and!; [exact Ht|exact Hs|].
  intros s Hin. destruct (Hall s Hin) as (r & Hr & Hid & _).
  exists r. split; [exact Hr|exact Hid].
Defined.

Lemma main_without_codes_clears_witness :
  Forall (λ raw, abbr_of raw = "") stray_rows ∧
  main py_int (Some stray_rows) (imported and_lines) = (Ok tt, empty_schema).
Proof.
  split; [exact stray_rows_blank|].
  exact (main_without_codes_clears py_int stray_rows (imported and_lines)
           stray_rows_blank).
Defined.

Lemma main_parse_failure_keeps_file_witness :
  mismatch_row py_int short_rows ∧
  ∃ e, main py_int (Some short_rows) (imported and_lines) =
       (Raise e, imported and_lines).
Proof.
  split; [exact short_rows_mismatch|].
  apply (main_parse_failure_keeps_file py_int).
  right. exists short_rows. split; [reflexivity|exact short_rows_mismatch].
Defined.

Lemma main_print_reports_row_count_witness :
  main_print py_int (Some and_rows) no_database =
    (Ok "Imported 3 constellation line definitions into ConstellationLines.sqlite",
     imported and_lines) ∧
  main py_int (Some and_rows) no_database = (Ok tt, imported and_lines).
Proof.
  assert (main_print py_int (Some and_rows) no_database =
    (Ok "Imported 3 constellation line definitions into ConstellationLines.sqlite",
     imported and_lines)) as H by (vm_compute; reflexivity).
  split; [exact H|].
  exact (proj1 (proj1 (main_print_reports_row_count py_int _ _) _ _ H)).
Defined.

Lemma _parse_int_ignores_padding_witness :
  strip "  " = "" ∧ strip " " = "" ∧
  _parse_int py_int (Some ("  " +:+ "42" +:+ " ")) =
  _parse_int py_int (Some "42").
Proof.
  assert (strip "  " = "") as H1 by reflexivity.
  assert (strip " " = "") as H2 by reflexivity.
  split_and!; [exact H1|exact H2|].
  exact (_parse_int_ignores_padding py_int "  " "42" " " H1 H2).
Defined.

Lemma star_id_accepted_and_persisted_witness :
  main py_int (Some and_rows) no_database = (Ok tt, imported and_lines) ∧
  ∃ stars,
    star_table (imported and_lines) = Some stars ∧
    {| constellation_line_star.line_id := 2;
       constellation_line_star.sequence_index := 1;
       constellation_line_star.bsc_number := -3 |} ∈ stars.
Proof.
  assert (main py_int (Some and_rows) no_database =
          (Ok tt, imported and_lines)) as H by (vm_compute; reflexivity).
  split; [exact H|].
  destruct (star_id_accepted_and_persisted py_int
              (take 2 and_rows)
              (mkrow [("abr", " "); ("s01", "-3"); ("s02", "4"); ("s31", "0")])
              (drop 3 and_rows) 0 "s01" "-3" (-3))
    as (_ & _ & _ & Hrow & _).
  - reflexivity.
  - vm_compute. reflexivity.
  - vm_compute. discriminate.
  - vm_compute. reflexivity.
  - vm_compute. discriminate.
  - destruct (Hrow no_database tt (imported and_lines) H)
      as (before & stars & Hbefore & Hstars & Hs).
    vm_compute in Hbefore. injection Hbefore as <-.
    exists stars. split; [exact Hstars|].
    apply (Hs {| constellation_line_star.line_id := 2;
                 constellation_line_star.sequence_index := 1;
                 constellation_line_star.bsc_number := -3 |}).
    vm_compute. reflexivity.
Defined.


Lemma import_needs_storable_witness :
  import_to_db no_database and_lines = (Ok tt, imported and_lines) ∧
  Forall storable and_lines.
Proof.
  assert (import_to_db no_database and_lines = (Ok tt, imported and_lines))
    as H by (vm_compute; reflexivity).
  split; [exact H|].
  exact (proj1 (import_needs_storable no_database and_lines) _ _ H).
Defined.

Lemma import_never_integrity_error_witness :
  Z.of_nat (length huge_lines) < 2 ^ 63 ∧
  import_to_db no_database huge_lines ≠ (Raise IntegrityError, empty_schema).
Proof.
  assert (Z.of_nat (length huge_lines) < 2 ^ 63) as H by (simpl; lia).
  split; [exact H|].
  exact (import_never_integrity_error no_database huge_lines empty_schema H).
Defined.
